(** * Rollbacks: the deduplication and aggregation pipeline of [rollback.py]

    A shallow embedding of the data-cleaning, filtering, deduplication and
    grouping code of the Streamlit script [src/rollback.py], followed by the
    properties of that code.

    Conventions of the embedding:
    - a pandas [DataFrame] is its list of column labels and its list of rows;
      a [Series] is handled element by element;
    - Python text is a Rocq [string] holding its UTF-8 encoding, one
      character of the [string] per byte; [str.strip] removes the white
      space of Unicode, given by its encodings; the order of texts is the
      order of their code points;
    - a missing value ([pd.NA], [NaN], [NaT]) is [None];
    - a [datetime64[ns, UTC]] value is the number of nanoseconds since the
      Unix epoch, in [Z], within the 64-bit integers;
    - what Python and pandas do and the script cannot influence, the
      lowercase form of a text, parsing a timestamp, compiling a pattern
      and matching it with [str.contains], is an interface ([Pandas]) that
      the pipeline is parametrised by, with the laws the script relies
      on. *)

From Stdlib Require Import ZArith Lia Ascii String.
From Stdlib Require DecimalString DecimalN.
From stdpp Require Import base decidable option list strings gmap sorting.

Local Open Scope string_scope.
Local Open Scope list_scope.

(** ** Python text *)

Module Text.

(** The value of a byte. *)
Definition byte (c : ascii) : N := N_of_ascii c.

(** The white space of Python, which [str.isspace()] accepts and
    [str.strip()] removes, by the length of its encoding. One byte: TAB,
    LF, VT, FF, CR, FS, GS, RS, US and the space. *)
Definition is_space (c : ascii) : bool :=
  let n := byte c in
  ((9 <=? n) && (n <=? 13) || (28 <=? n) && (n <=? 32))%N.

(** Two bytes: U+0085 (next line) and U+00A0 (no-break space). *)
Definition is_space2 (c1 c2 : ascii) : bool :=
  ((byte c1 =? 0xC2) && ((byte c2 =? 0x85) || (byte c2 =? 0xA0)))%N.

(** Three bytes: U+1680, U+2000 to U+200A, U+2028, U+2029, U+202F, U+205F
    and U+3000. *)
Definition is_space3 (c1 c2 c3 : ascii) : bool :=
  let a := byte c1 in
  let b := byte c2 in
  let c := byte c3 in
  ((a =? 0xE1) && (b =? 0x9A) && (c =? 0x80)
   || (a =? 0xE2) && (b =? 0x80)
      && ((0x80 <=? c) && (c <=? 0x8A) || (c =? 0xA8) || (c =? 0xA9) || (c =? 0xAF))
   || (a =? 0xE2) && (b =? 0x81) && (c =? 0x9F)
   || (a =? 0xE3) && (b =? 0x80) && (c =? 0x80))%N.

(** A continuation byte of UTF-8: a byte of a character that is not its
    first. *)
Definition continuation (c : ascii) : Prop := (128 <= byte c < 192)%N.

(** The text after the white-space character that [s] starts with, when it
    starts with one. *)
Definition skip_space (s : string) : option string :=
  match s with
  | EmptyString => None
  | String c1 s1 =>
      if is_space c1 then Some s1
      else match s1 with
           | EmptyString => None
           | String c2 s2 =>
               if is_space2 c1 c2 then Some s2
               else match s2 with
                    | EmptyString => None
                    | String c3 s3 => if is_space3 c1 c2 c3 then Some s3 else None
                    end
           end
  end.

(** [s.lstrip()] *)
Fixpoint lstrip (s : string) : string :=
  match s with
  | EmptyString => EmptyString
  | String c1 s1 =>
      if is_space c1 then lstrip s1
      else match s1 with
           | EmptyString => s
           | String c2 s2 =>
               if is_space2 c1 c2 then lstrip s2
               else match s2 with
                    | EmptyString => s
                    | String c3 s3 => if is_space3 c1 c2 c3 then lstrip s3 else s
                    end
           end
  end.

(** A text of white space only: nothing is left of it. *)
Definition blank (s : string) : bool := bool_decide (lstrip s = EmptyString).

(** [s.rstrip()]: the text is cut where what follows is white space
    only. *)
Fixpoint rstrip (s : string) : string :=
  match s with
  | EmptyString => EmptyString
  | String c s' => if blank s then EmptyString else String c (rstrip s')
  end.

(** [s.strip()] *)
Definition strip (s : string) : string := rstrip (lstrip s).

(** A text of ASCII characters. *)
Definition is_ascii (s : string) : bool :=
  forallb (fun c => (byte c <? 128)%N) (list_ascii_of_string s).

(** [s.lower()] on the letters A to Z; the other bytes are kept. *)
Definition lower_char (c : ascii) : ascii :=
  let n := nat_of_ascii c in
  if ((65 <=? n) && (n <=? 90))%nat then ascii_of_nat (n + 32) else c.

Fixpoint ascii_lower (s : string) : string :=
  match s with
  | EmptyString => EmptyString
  | String c s' => String (lower_char c) (ascii_lower s')
  end.

Definition LF : ascii := ascii_of_nat 10.

(** The no-break space U+00A0 and the ideographic space U+3000. *)
Definition NBSP : string := String (ascii_of_N 0xC2) (String (ascii_of_N 0xA0) EmptyString).
Definition IDSP : string :=
  String (ascii_of_N 0xE3) (String (ascii_of_N 0x80) (String (ascii_of_N 0x80) EmptyString)).

(** [re.sub(r"\.0$", "", s)]: the pattern matches a ".0" that ends the
    text, or that stands just before a line feed ending the text (Python's
    [$] without MULTILINE). At most one position matches. *)
Fixpoint sub_dot0_end (s : string) : string :=
  match s with
  | EmptyString => EmptyString
  | String c s' =>
      if bool_decide (s = ".0") then EmptyString
      else if bool_decide (s = String "." (String "0" (String LF EmptyString)))
      then String LF EmptyString
      else String c (sub_dot0_end s')
  end.

(** [needle] is a part of [hay]. *)
Definition occurs (needle hay : string) : Prop :=
  exists pre post, hay = pre +:+ needle +:+ post.

(** [", ".join(l)] *)
Fixpoint join (sep : string) (l : list string) : string :=
  match l with
  | [] => EmptyString
  | [s] => s
  | s :: l' => s +:+ sep +:+ join sep l'
  end.

(** [repr(l)] for a list of texts without quotes or escapes, as the
    required column names are. *)
Definition repr_list (l : list string) : string :=
  "[" +:+ join ", " (fmap (fun s => "'" +:+ s +:+ "'") l) +:+ "]".

End Text.

(** ** Cells of the raw table *)

(** A value stored in a cell of the uploaded table, by what [str()] makes
    of it: text is itself, a number is given by its printed form (the float
    12345 prints as "12345.0"), and the three missing values print as "nan",
    "None" and "NaT". *)
Inductive cell : Type :=
  | Text (s : string)
  | Num (printed : string)
  | NaN
  | PyNone
  | NaT.

(** [series.astype(str)], on one element. *)
Definition astype_str (c : cell) : string :=
  match c with
  | Text s => s
  | Num p => p
  | NaN => "nan"
  | PyNone => "None"
  | NaT => "NaT"
  end.

(** [series.replace(olds, pd.NA)], on one element: exact, case-sensitive
    equality with one of [olds]. *)
Definition replace_with_na (olds : list string) (s : string) : option string :=
  if bool_decide (s ∈ olds) then None else Some s.

(** [series.replace(olds, new)], on one element. *)
Definition replace_with (olds : list string) (new : string) (s : string) : string :=
  if bool_decide (s ∈ olds) then new else s.

(** [series.replace(d)] for a dict [d], on one element. *)
Fixpoint dict_get (d : list (string * string)) (k : string) : option string :=
  match d with
  | [] => None
  | (k', v) :: d' => if bool_decide (k = k') then Some v else dict_get d' k
  end.

Definition replace_dict (d : list (string * string)) (s : string) : string :=
  default s (dict_get d s).

(** [series.str.strip()]: a missing value stays missing. *)
Definition str_strip (o : option string) : option string := Text.strip <$> o.

(** ** Timestamps *)

Module Timestamp.
Local Open Scope Z_scope.

Definition ns_per_minute : Z := 60 * 1000000000.
Definition ns_per_hour : Z := 3600 * 1000000000.
Definition ns_per_day : Z := 86400 * 1000000000.

(** The choice of the sidebar (line 103). *)
Inductive bucket : Type := Minuto | Hora.

(** [freq] (line 108), given by the width of the offset alias: "H" is an
    hour, "T" a minute. *)
Definition freq (b : bucket) : Z :=
  match b with
  | Hora => ns_per_hour
  | Minuto => ns_per_minute
  end.

(** The start of the bucket of an instant: the last multiple of the width
    that is not after it. *)
Definition floor (width t : Z) : Z := t - t mod width.

(** The values of [datetime64[ns]] are the 64-bit integers, the least one
    apart, which is [NaT]. *)
Definition int64_min : Z := - 2 ^ 63.
Definition int64_max : Z := 2 ^ 63 - 1.

(** [series.dt.floor(freq)] on a UTC instant: the start of its bucket, or
    an [OverflowError] when that start is below the 64-bit integers. *)
Definition dt_floor (width t : Z) : option Z :=
  let start := floor width t in
  if start <? int64_min then None else Some start.

(** The proleptic Gregorian date [(year, month, day)] of a day number
    counted from 1970-01-01. *)
Definition civil_from_days (z : Z) : Z * Z * Z :=
  let z := z + 719468 in
  let era := z / 146097 in
  let doe := z - era * 146097 in
  let yoe := (doe - doe / 1460 + doe / 36524 - doe / 146096) / 365 in
  let y := yoe + era * 400 in
  let doy := doe - (365 * yoe + yoe / 4 - yoe / 100) in
  let mp := (5 * doy + 2) / 153 in
  let d := doy - (153 * mp + 2) / 5 + 1 in
  let m := if mp <? 10 then mp + 3 else mp - 9 in
  (if m <=? 2 then y + 1 else y, m, d).

(** The day number of a date. *)
Definition days_from_civil (y m d : Z) : Z :=
  let y := if m <=? 2 then y - 1 else y in
  let era := y / 400 in
  let yoe := y - era * 400 in
  let doy := (153 * (if 2 <? m then m - 3 else m + 9) + 2) / 5 + d - 1 in
  let doe := yoe * 365 + yoe / 4 - yoe / 100 + doy in
  era * 146097 + doe - 719468.

(** The instant of a UTC date and time of day. *)
Definition of_civil (y m d hh mm ss : Z) : Z :=
  days_from_civil y m d * ns_per_day
  + hh * ns_per_hour + mm * ns_per_minute + ss * 1000000000.





Definition digit (n : Z) : ascii := ascii_of_nat (48 + Z.to_nat (n mod 10)).

Definition pad2 (n : Z) : string :=
  String (digit (n / 10)) (String (digit n) EmptyString).

Definition pad4 (n : Z) : string :=
  String (digit (n / 1000)) (String (digit (n / 100)) (pad2 n)).

(** [series.dt.strftime("%d/%m/%Y %H:%M")] on a UTC instant whose year
    has four digits (every [datetime64[ns]] value has). *)
Definition strftime (t : Z) : string :=
  let '(y, m, d) := civil_from_days (t / ns_per_day) in
  let r := t mod ns_per_day in
  pad2 d +:+ "/" +:+ pad2 m +:+ "/" +:+ pad4 y +:+ " "
  +:+ pad2 (r / ns_per_hour) +:+ ":" +:+ pad2 (r mod ns_per_hour / ns_per_minute).

End Timestamp.

(** ** What is taken from Python and pandas *)

(** The functions of Python and of pandas whose result the script does not
    compute itself, with the laws that hold of them. *)
Class Pandas : Type := {
  (** [s.lower()], the lowercase form of Unicode: on ASCII text it is the
      lowercase form of the letters A to Z; the lowercase form of a
      lowercase form is itself; white space has no other case and no
      character becomes white space, so that the lowercase form of a
      stripped text is the stripped lowercase form. *)
  str_lower : string -> string;
  str_lower_ascii : forall s,
    Text.is_ascii s = true -> str_lower s = Text.ascii_lower s;
  str_lower_idemp : forall s, str_lower (str_lower s) = str_lower s;
  str_lower_strip : forall s, Text.strip (str_lower s) = str_lower (Text.strip s);
  (** [pd.to_datetime(column, errors="coerce", utc=True)]: one instant of
      [datetime64[ns]] or [NaT] per element of the column. *)
  to_datetime : list cell -> list (option Z);
  to_datetime_length : forall l, length (to_datetime l) = length l;
  to_datetime_range : forall l t,
    Some t ∈ to_datetime l -> (Timestamp.int64_min < t <= Timestamp.int64_max)%Z;
  (** [re.compile(pat)] does not raise [re.error]. *)
  regex_compiles : string -> bool;
  (** [text.str.contains(pat, case=False)] on one element, for a pattern
      that compiles: [pat] is searched as a regular expression, ignoring
      case. *)
  str_contains : string -> string -> bool;
  (** What [astype(str)] prints for a missing value of a cleaned text
      column. *)
  na_text : string
}.

(** ** Helpers of the script *)

(** [coerce_user_id] (lines 51-55). *)
Definition coerce_user_id (c : cell) : option string :=
  let s := astype_str c in
  let s := Text.sub_dot0_end s in
  let s := replace_with_na ["nan"; "None"; "NaT"] s in
  str_strip s.

(** The cleaning of [game_name] and of [reference] (lines 160-161):
    [astype(str).replace(["nan", "None"], pd.NA).str.strip()]. *)
Definition coerce_text (c : cell) : option string :=
  str_strip (replace_with_na ["nan"; "None"] (astype_str c)).

(** The alias table of [normalize_brand]. *)
Definition brand_aliases : list (string * string) :=
  [ ("7k", "7K"); ("7kbet", "7K"); ("7kbetbr", "7K");
    ("cassino", "Cassino"); ("cassinobet", "Cassino"); ("cassinobetbr", "Cassino");
    ("vera", "Vera"); ("verabet", "Vera"); ("verabetbr", "Vera") ].

Definition sem_brand : string := "Sem Brand".

(** [normalize_brand] (lines 78-96). *)
Definition normalize_brand `{Pandas} (c : cell) : string :=
  let x := Text.strip (astype_str c) in
  let x_lower := str_lower x in
  let x := replace_dict brand_aliases x_lower in
  let x := replace_with ["nan"; "none"; ""] sem_brand x in
  x.

(** ** Column validation *)

(** The uploaded table: its column labels (already as text) and its rows,
    one cell per column. *)
Record DataFrame : Type := mkDataFrame {
  columns : list string;
  data : list (list cell)
}.

(** [norm_cols] (lines 46-49): the labels are stripped, the rows are kept. *)
Definition norm_cols (df : DataFrame) : DataFrame :=
  {| columns := fmap Text.strip (columns df); data := data df |}.

Definition required : list string :=
  ["user_id"; "game_name"; "reference"; "created_at"; "brand_name"].

(** The dict comprehension [{c.lower().strip(): c for c in df.columns}]:
    a later column overwrites an earlier one with the same key. *)
Definition cols_lower `{Pandas} (cols : list string) : gmap string string :=
  foldl (fun m c => <[Text.strip (str_lower c) := c]> m) ∅ cols.

(** A column label of the file matches a required name when the key made
    of it, stripped by [norm_cols], then lowercased and stripped by
    [require_cols], is that name. *)
Definition header_matches `{Pandas} (name label : string) : Prop :=
  Text.strip (str_lower (Text.strip label)) = name.

Global Instance header_matches_dec `{Pandas} name label :
  Decision (header_matches name label).
Proof. unfold header_matches. apply _. Defined.

(** The required names that no label of the file matches. *)
Definition not_found `{Pandas} (cols req : list string) : list string :=
  filter (fun name => Forall (fun label => ~ header_matches name label) cols) req.

(** The text of the [ValueError] raised by [require_cols]. *)
Definition missing_message (missing req : list string) : string :=
  "Colunas obrigatórias não encontradas: " +:+ Text.repr_list missing
  +:+ ". Necessário: " +:+ Text.join ", " req.

(** [require_cols] (lines 69-76): [inl] is the raised [ValueError] with its
    message, [inr] the returned dict, as the list of its items. *)
Definition require_cols `{Pandas} (df : DataFrame) (req : list string)
    : string + list (string * string) :=
  let cl := cols_lower (columns df) in
  let missing := filter (fun c => cl !! c = None) req in
  if bool_decide (missing ≠ [])
  then inl (missing_message missing req)
  else inr (fmap (fun k => (k, default "" (cl !! k))) req).

(** ** Records *)

(** A row after the five columns have been selected and renamed
    (lines 156-157). *)
Record RawRecord : Type := mkRaw {
  raw_user_id : cell;
  raw_game_name : cell;
  raw_reference : cell;
  raw_created_at : cell;
  raw_brand_name : cell
}.

(** A row after cleaning (lines 159-167). [created_at] is in nanoseconds
    since the Unix epoch, UTC. *)
Record CleanRecord : Type := mkClean {
  user_id : option string;
  game_name : option string;
  reference : option string;
  created_at : option Z;
  brand_name : string
}.

Global Instance cell_eq_dec : EqDecision cell.
Proof. solve_decision. Defined.
Global Instance RawRecord_eq_dec : EqDecision RawRecord.
Proof. solve_decision. Defined.
Global Instance CleanRecord_eq_dec : EqDecision CleanRecord.
Proof. solve_decision. Defined.

(** ** Table operations of pandas used by the script *)

(** A stable sort: [x] is put before the first element it is not above. *)
Fixpoint sort_insert {A : Type} (leb : A -> A -> bool) (x : A) (l : list A) : list A :=
  match l with
  | [] => [x]
  | y :: l' => if leb x y then x :: y :: l' else y :: sort_insert leb x l'
  end.

Definition sort_by {A : Type} (leb : A -> A -> bool) (l : list A) : list A :=
  foldr (sort_insert leb) [] l.

Section TableOps.
Context {A K : Type} `{EqDecision K}.

(** [df.drop_duplicates(subset=...)], with the default [keep="first"]:
    [key] projects a row on the subset; rows are scanned in order and a row
    is kept when its key has not been seen. *)
Fixpoint drop_duplicates_from (key : A -> K) (seen : list K) (l : list A) : list A :=
  match l with
  | [] => []
  | r :: l' =>
      if bool_decide (key r ∈ seen) then drop_duplicates_from key seen l'
      else r :: drop_duplicates_from key (key r :: seen) l'
  end.

Definition drop_duplicates (key : A -> K) (l : list A) : list A :=
  drop_duplicates_from key [] l.

(** The rows of one group. [key] is [None] on a row with a missing value
    in a grouping column: [groupby] leaves such rows out
    ([dropna=True]). *)
Definition group (key : A -> option K) (k : K) (l : list A) : list A :=
  filter (fun r => key r = Some k) l.

(** [df.groupby(cols, as_index=False).agg(...)]: one output row per
    distinct key, the keys in ascending order ([sort=True]), each with the
    aggregate of its group. *)
Definition groupby {V : Type} (leb : K -> K -> bool) (key : A -> option K)
    (agg : list A -> V) (l : list A) : list (K * V) :=
  fmap (fun k => (k, agg (group key k l)))
      (sort_by leb (remove_dups (omap key l))).

End TableOps.

(** [df.sort_values("qtd_rollbacks", ascending=False)], the count being the
    last component of a row. pandas sorts with quicksort, which does not fix
    the order of rows with equal counts; here they keep the order they had,
    and nothing below depends on it. *)
Definition sort_values_desc {K : Type} (l : list (K * nat)) : list (K * nat) :=
  sort_by (fun a b => (b.2 <=? a.2)%nat) l.

(** The order of the group keys: texts by code point, pairs lexicographic. *)
Definition pair_leb {A B : Type} `{EqDecision A}
    (lebA : A -> A -> bool) (lebB : B -> B -> bool) (x y : A * B) : bool :=
  if decide (x.1 = y.1) then lebB x.2 y.2 else lebA x.1 y.1.

(** ** The pipeline (lines 169-240) *)

Definition key_brand_ref (r : CleanRecord) : string * option string :=
  (brand_name r, reference r).

Definition key_brand_user_game_ref (r : CleanRecord)
    : string * option string * option string * option string :=
  (brand_name r, user_id r, game_name r, reference r).

(** Lines 170-171: [dropna(subset=["reference", "created_at"])], then the
    rows whose reference has positive length. *)
Definition remove_invalid (df : list CleanRecord) : list CleanRecord :=
  let df := filter (fun r => is_Some (reference r) ∧ is_Some (created_at r)) df in
  filter (fun r => (0 < String.length (default "" (reference r)))%nat) df.

(** A row that cannot count as a rollback: its reference is missing or
    empty, or its timestamp did not parse. *)
Definition invalid_row (r : CleanRecord) : Prop :=
  reference r = None \/ reference r = Some "" \/ created_at r = None.

(** The filters of the sidebar (lines 183-186). *)
Record Filters : Type := mkFilters {
  f_brand : list string;
  f_user : string;
  f_game : string
}.

(** [agg(qtd_rollbacks=("reference", "count"))]: the rows of the group whose
    reference is not missing. *)
Definition count_reference (g : list CleanRecord) : nat :=
  length (filter (fun r => is_Some (reference r)) g).

(** [series.nunique()]: the distinct values that are not missing. *)
Definition nunique {V : Type} `{EqDecision V} (l : list (option V)) : nat :=
  length (remove_dups (omap id l)).

(** Line 203. *)
Definition refs_brand (dff : list CleanRecord) : list CleanRecord :=
  drop_duplicates key_brand_ref dff.

(** Lines 213-219: a row is [(brand_name, bucket_time, qtd_rollbacks)],
    then [horario_utc] is added. *)
Definition horarios_counts (width : Z) (rb : list CleanRecord)
    : list (string * Z * nat) :=
  sort_values_desc
    (groupby (pair_leb String.leb Z.leb)
       (fun r => t ← created_at r; Some (brand_name r, Timestamp.floor width t))
       count_reference rb).

Definition horarios (width : Z) (rb : list CleanRecord)
    : list (string * Z * nat * string) :=
  fmap (fun row => (row, Timestamp.strftime row.1.2)) (horarios_counts width rb).

(** Lines 221-226: a row is [(brand_name, game_name, qtd_rollbacks)]. *)
Definition jogos (rb : list CleanRecord) : list (string * string * nat) :=
  sort_values_desc
    (groupby (pair_leb String.leb String.leb)
       (fun r => g ← game_name r; Some (brand_name r, g))
       count_reference
       (filter (fun r => is_Some (game_name r)) rb)).

(** Lines 228-232: a row is [(game_name, qtd_rollbacks)]. *)
Definition top_jogos_geral (jg : list (string * string * nat)) : list (string * nat) :=
  sort_values_desc
    (groupby String.leb (fun row => Some row.1.2)
       (fun g => sum_list (fmap snd g)) jg).

(** Line 237. *)
Definition total_rollbacks (rb : list CleanRecord) : nat :=
  sum_list (fmap snd
    (groupby String.leb (fun r => Some (brand_name r))
       (fun g => nunique (fmap reference g)) rb)).

(** Line 240. *)
Definition total_jogos (jg : list (string * string * nat)) : nat :=
  sum_list (fmap snd
    (groupby String.leb (fun row => Some row.1.1)
       (fun g => nunique (fmap (fun row => Some row.1.2) g)) jg)).

Section Pipeline.
Context `{Pandas}.

(** Lines 159-167. [pd.to_datetime] gives one value per row. *)
Definition clean (rows : list RawRecord) : list CleanRecord :=
  zip_with
    (fun r t =>
       {| user_id := coerce_user_id (raw_user_id r);
          game_name := coerce_text (raw_game_name r);
          reference := coerce_text (raw_reference r);
          created_at := t;
          brand_name := normalize_brand (raw_brand_name r) |})
    rows (to_datetime (fmap raw_created_at rows)).

(** [series.astype(str)] on a cleaned text column. *)
Definition na_astype_str (o : option string) : string := default na_text o.

(** Lines 188-194. An empty selection or an empty text is no filter. *)
Definition apply_filters (cfg : Filters) (df : list CleanRecord) : list CleanRecord :=
  let dff := df in
  let dff := if bool_decide (f_brand cfg ≠ [])
             then filter (fun r => brand_name r ∈ f_brand cfg) dff else dff in
  let dff := if bool_decide (f_user cfg ≠ "")
             then filter (fun r => str_contains (f_user cfg) (na_astype_str (user_id r))) dff
             else dff in
  let dff := if bool_decide (f_game cfg ≠ "")
             then filter (fun r => str_contains (f_game cfg) (na_astype_str (game_name r))) dff
             else dff in
  dff.

(** A row passes the filters. *)
Definition passes (cfg : Filters) (r : CleanRecord) : Prop :=
  (f_brand cfg <> [] -> brand_name r ∈ f_brand cfg)
  /\ (f_user cfg <> "" -> str_contains (f_user cfg) (na_astype_str (user_id r)))
  /\ (f_game cfg <> "" -> str_contains (f_game cfg) (na_astype_str (game_name r))).

Global Instance passes_dec cfg r : Decision (passes cfg r).
Proof. unfold passes. apply _. Defined.

(** The patterns of the text filters that are set compile: otherwise
    [str.contains] raises [re.error] (lines 192 and 194), whatever the
    rows. *)
Definition patterns_compile (cfg : Filters) : Prop :=
  (f_user cfg <> "" -> regex_compiles (f_user cfg))
  /\ (f_game cfg <> "" -> regex_compiles (f_game cfg)).

Global Instance patterns_compile_dec cfg : Decision (patterns_compile cfg).
Proof. unfold patterns_compile. apply _. Defined.

End Pipeline.

(** Line 213: [dt.floor] raises on the column when it does on one of its
    instants. *)
Definition floor_raises (width : Z) (rb : list CleanRecord) : Prop :=
  Exists (fun r => match created_at r with
                   | Some t => Timestamp.dt_floor width t = None
                   | None => False
                   end) rb.

Global Instance floor_raises_dec width rb : Decision (floor_raises width rb).
Proof.
  unfold floor_raises. apply Exists_dec. intros r.
  destruct (created_at r); apply _.
Defined.

(** Lines 205-211: a row is [(brand_name, user_id, game_name, qtd_rollbacks)]. *)
Definition cliente_jogo (dff : list CleanRecord)
    : list (string * string * string * nat) :=
  sort_values_desc
    (groupby (pair_leb (pair_leb String.leb String.leb) String.leb)
       (fun r => u ← user_id r; g ← game_name r; Some (brand_name r, u, g))
       count_reference
       (drop_duplicates key_brand_user_game_ref
          (filter (fun r => is_Some (user_id r) ∧ is_Some (game_name r)
                            ∧ is_Some (reference r)) dff))).

(** Everything the script computes before it renders (lines 203-240). *)
Record Tables : Type := mkTables {
  t_refs_brand : list CleanRecord;
  t_cliente_jogo : list (string * string * string * nat);
  t_horarios : list (string * Z * nat * string);
  t_jogos : list (string * string * nat);
  t_top_jogos_geral : list (string * nat);
  t_total_rollbacks : nat;
  t_total_usuario_jogo : nat;
  t_total_horarios : nat;
  t_total_jogos : nat
}.

Definition processamento (b : Timestamp.bucket) (dff : list CleanRecord) : Tables :=
  let rb := refs_brand dff in
  let cj := cliente_jogo dff in
  let hs := horarios (Timestamp.freq b) rb in
  let jg := jogos rb in
  {| t_refs_brand := rb;
     t_cliente_jogo := cj;
     t_horarios := hs;
     t_jogos := jg;
     t_top_jogos_geral := top_jogos_geral jg;
     t_total_rollbacks := total_rollbacks rb;
     t_total_usuario_jogo := length cj;
     t_total_horarios := length hs;
     t_total_jogos := total_jogos jg |}.

(** How a run of the script ends: [st.error] or [st.warning] followed by
    [st.stop()], an exception the script does not catch, or the tables. *)
Inductive outcome : Type :=
  | StopError (msg : string)
  | StopWarning (msg : string)
  | Uncaught
  | Rendered (t : Tables).

Definition no_valid_rows : string :=
  "A BASE não tem linhas válidas com reference e created_at.".
Definition no_filtered_rows : string :=
  "Nenhum dado após aplicar filtros.".

(** Line 156: the positions of the columns carrying a label. *)
Definition positions (label : string) (cols : list string) : list nat :=
  filter (fun i => cols !! i = Some label) (seq 0 (length cols)).

(** Lines 156-157: the five columns are selected by the labels of
    [colmap] and renamed. A label carried by several columns selects them
    all, and the renaming then fails on the number of columns. *)
Definition select_columns (colmap : list (string * string)) (df : DataFrame)
    : option (list RawRecord) :=
  match fmap (fun kv => positions kv.2 (columns df)) colmap with
  | [[u]; [g]; [r]; [c]; [b]] =>
      let at_ (row : list cell) (i : nat) := default NaN (row !! i) in
      Some (fmap (fun row => mkRaw (at_ row u) (at_ row g) (at_ row r)
                                  (at_ row c) (at_ row b)) (data df))
  | _ => None
  end.

Section Script.
Context `{Pandas}.

(** Lines 170-240, from the cleaned table. After the valid rows have been
    found not empty, the text filters compile their patterns, and
    [dt.floor] is applied to the fact table; an exception of either ends
    the run. *)
Definition pipeline (cfg : Filters) (b : Timestamp.bucket)
    (df : list CleanRecord) : outcome :=
  let df := remove_invalid df in
  if bool_decide (df = []) then StopWarning no_valid_rows
  else if bool_decide (patterns_compile cfg)
  then
    let dff := apply_filters cfg df in
    if bool_decide (dff = []) then StopWarning no_filtered_rows
    else if bool_decide (floor_raises (Timestamp.freq b) (refs_brand dff))
    then Uncaught
    else Rendered (processamento b dff)
  else Uncaught.

(** Lines 144-240, from the loaded file. *)
Definition main (cfg : Filters) (b : Timestamp.bucket) (df : DataFrame) : outcome :=
  let df := norm_cols df in
  match require_cols df required with
  | inl e => StopError e
  | inr colmap =>
      match select_columns colmap df with
      | None => Uncaught
      | Some rows => pipeline cfg b (clean rows)
      end
  end.

End Script.

(** ** An instance of the interface

    An instance for ASCII text. The lowercase form is that of the letters
    A to Z. Timestamps written as [YYYY-MM-DDTHH:MM:SSZ] that
    [datetime64[ns]] holds are parsed, anything else is [NaT]. A pattern
    without special characters compiles and is searched as literal text,
    ignoring the case of the letters A to Z, as the regular expression
    does; the instance does not run other patterns and takes them not to
    compile. A missing value prints as "nan". It is used to run the
    pipeline on concrete tables. *)
Module Iso.
Local Open Scope Z_scope.

Definition digit_value (c : ascii) : option Z :=
  let n := Z.of_nat (nat_of_ascii c) in
  if (48 <=? n) && (n <=? 57) then Some (n - 48) else None.

Fixpoint number (acc : Z) (l : list ascii) : option Z :=
  match l with
  | [] => Some acc
  | c :: l' => d ← digit_value c; number (10 * acc + d) l'
  end.

Definition parse (s : string) : option Z :=
  match list_ascii_of_string s with
  | [y1; y2; y3; y4; c1; m1; m2; c2; d1; d2; c3; h1; h2; c4; n1; n2; c5; s1; s2; c6] =>
      if bool_decide ([c1; c2; c3; c4; c5; c6]
                      = ["-"; "-"; "T"; ":"; ":"; "Z"]%char)
      then
        y ← number 0 [y1; y2; y3; y4];
        m ← number 0 [m1; m2];
        d ← number 0 [d1; d2];
        hh ← number 0 [h1; h2];
        mm ← number 0 [n1; n2];
        ss ← number 0 [s1; s2];
        if bool_decide (Timestamp.civil_from_days (Timestamp.days_from_civil y m d)
                        = (y, m, d))
           && (hh <? 24) && (mm <? 60) && (ss <? 60)
        then Some (Timestamp.of_civil y m d hh mm ss)
        else None
      else None
  | _ => None
  end.

Definition in_range (t : Z) : bool :=
  (Timestamp.int64_min <? t) && (t <=? Timestamp.int64_max).

Definition parse_cell (c : cell) : option Z :=
  match c with
  | Text s => t ← parse s; if in_range t then Some t else None
  | _ => None
  end.

Fixpoint find (p s : string) : bool :=
  if String.prefix p s then true
  else match s with
       | EmptyString => false
       | String _ s' => find p s'
       end.

Definition contains (pat text : string) : bool :=
  find (Text.ascii_lower pat) (Text.ascii_lower text).

(** The special characters of a regular expression. *)
Definition is_meta (c : ascii) : bool :=
  bool_decide (c ∈ ["."; "^"; "$"; "*"; "+"; "?"; "{"; "}"; "["; "]"; "\"; "|"; "("; ")"]%char).

Definition literal (pat : string) : bool :=
  forallb (fun c => negb (is_meta c)) (list_ascii_of_string pat).

#[export] Instance pandas : Pandas.
Proof.
  refine {| str_lower := Text.ascii_lower;
            to_datetime := fmap parse_cell;
            regex_compiles := literal;
            str_contains := contains;
            na_text := "nan" |}.
  - (* ASCII text *)
    reflexivity.
  - (* the lowercase form of a lowercase form *)
    intros s. induction s as [|c s IH]; [reflexivity|].
    cbn [Text.ascii_lower]. rewrite IH. f_equal.
    by destruct c as [[] [] [] [] [] [] [] []].
  - (* white space has no other case *)
    assert (Hfix : forall c,
              (128 <=? Text.byte (Text.lower_char c))%N = true
              \/ (128 <=? Text.byte c)%N = true -> Text.lower_char c = c)
      by (intros [[] [] [] [] [] [] [] []] [?|?]; done).
    assert (H1 : forall c, Text.is_space (Text.lower_char c) = Text.is_space c)
      by (by intros [[] [] [] [] [] [] [] []]).
    assert (H2h : forall c1 c2, Text.is_space2 c1 c2 = true ->
              (128 <=? Text.byte c1)%N = true /\ (128 <=? Text.byte c2)%N = true).
    { intros c1 c2. unfold Text.is_space2.
      rewrite !andb_true_iff, !orb_true_iff, !N.eqb_eq, !N.leb_le. lia. }
    assert (H3h : forall c1 c2 c3, Text.is_space3 c1 c2 c3 = true ->
              (128 <=? Text.byte c1)%N = true /\ (128 <=? Text.byte c2)%N = true
              /\ (128 <=? Text.byte c3)%N = true).
    { intros c1 c2 c3. unfold Text.is_space3. cbv zeta.
      rewrite !orb_true_iff, !andb_true_iff, !orb_true_iff, !andb_true_iff,
        !N.eqb_eq, !N.leb_le. lia. }
    assert (H2 : forall c1 c2,
              Text.is_space2 (Text.lower_char c1) (Text.lower_char c2)
              = Text.is_space2 c1 c2).
    { intros c1 c2.
      destruct (Text.is_space2 (Text.lower_char c1) (Text.lower_char c2)) eqn:L,
               (Text.is_space2 c1 c2) eqn:R; try reflexivity.
      - destruct (H2h _ _ L) as [A B].
        rewrite (Hfix c1), (Hfix c2) in L by auto. congruence.
      - destruct (H2h _ _ R) as [A B].
        rewrite (Hfix c1), (Hfix c2) in L by auto. congruence. }
    assert (H3 : forall c1 c2 c3,
              Text.is_space3 (Text.lower_char c1) (Text.lower_char c2) (Text.lower_char c3)
              = Text.is_space3 c1 c2 c3).
    { intros c1 c2 c3.
      destruct (Text.is_space3 (Text.lower_char c1) (Text.lower_char c2)
                  (Text.lower_char c3)) eqn:L,
               (Text.is_space3 c1 c2 c3) eqn:R; try reflexivity.
      - destruct (H3h _ _ _ L) as (A & B & C).
        rewrite (Hfix c1), (Hfix c2), (Hfix c3) in L by auto. congruence.
      - destruct (H3h _ _ _ R) as (A & B & C).
        rewrite (Hfix c1), (Hfix c2), (Hfix c3) in L by auto. congruence. }
    assert (Hskip : forall s,
              Text.skip_space (Text.ascii_lower s)
              = Text.ascii_lower <$> Text.skip_space s).
    { intros [|c1 [|c2 [|c3 s]]]; cbn [Text.ascii_lower Text.skip_space];
        rewrite ?H1, ?H2, ?H3; [done|by destruct (Text.is_space c1)| |].
      - destruct (Text.is_space c1); [done|]. by destruct (Text.is_space2 c1 c2).
      - destruct (Text.is_space c1); [done|].
        destruct (Text.is_space2 c1 c2); [done|].
        by destruct (Text.is_space3 c1 c2 c3). }
    assert (Hlen : forall s r, Text.skip_space s = Some r ->
              (String.length r < String.length s)%nat).
    { intros [|c1 [|c2 [|c3 s]]] r; cbn [Text.skip_space String.length];
        repeat (case_match; try discriminate); intros [= <-];
        cbn [String.length]; lia. }
    assert (Heq : forall s,
              Text.lstrip s = match Text.skip_space s with
                              | Some r => Text.lstrip r
                              | None => s
                              end).
    { intros [|c1 [|c2 [|c3 s]]]; cbn [Text.lstrip Text.skip_space];
        try done; repeat (case_match; try done). }
    assert (Hl : forall n s, (String.length s <= n)%nat ->
              Text.lstrip (Text.ascii_lower s) = Text.ascii_lower (Text.lstrip s)).
    { induction n as [|n IH]; intros s Hn.
      - destruct s; [reflexivity|cbn [String.length] in Hn; lia].
      - rewrite (Heq s), (Heq (Text.ascii_lower s)), Hskip.
        destruct (Text.skip_space s) as [r|] eqn:Hr; [|reflexivity].
        cbn. apply IH. apply Hlen in Hr. lia. }
    assert (Hb : forall s, Text.blank (Text.ascii_lower s) = Text.blank s).
    { intros s. unfold Text.blank. rewrite (Hl _ s (le_n _)).
      by destruct (Text.lstrip s). }
    assert (Hr : forall s,
              Text.rstrip (Text.ascii_lower s) = Text.ascii_lower (Text.rstrip s)).
    { induction s as [|c s IH]; [reflexivity|].
      change (Text.rstrip (Text.ascii_lower (String c s)))
        with (if Text.blank (Text.ascii_lower (String c s)) then EmptyString
              else String (Text.lower_char c) (Text.rstrip (Text.ascii_lower s))).
      change (Text.rstrip (String c s))
        with (if Text.blank (String c s) then EmptyString
              else String c (Text.rstrip s)).
      rewrite Hb, IH. by destruct (Text.blank (String c s)). }
    intros s. unfold Text.strip. by rewrite (Hl _ s (le_n _)), Hr.
  - intros l. apply length_fmap.
  - intros l t (c & Hc & _)%list_elem_of_fmap.
    destruct c as [s| | | |]; try discriminate. cbn in Hc.
    destruct (parse s) as [t'|]; [|discriminate]. cbn in Hc.
    destruct (in_range t') eqn:Hr; [|discriminate]. injection Hc as <-.
    unfold in_range in Hr. apply andb_prop in Hr as [?%Z.ltb_lt ?%Z.leb_le]. lia.
Defined.

End Iso.

(** ** The rest of the script *)

(** [str(n)] for a natural number. *)
Definition decimal (n : N) : string :=
  DecimalString.NilZero.string_of_uint (N.to_uint n).

(** The grouping of [format(n, ",")]: a separator stands before every digit
    that is followed by a multiple of three digits, the first digit
    apart. *)
Fixpoint group_digits (sep : ascii) (digits : list ascii) : list ascii :=
  match digits with
  | [] => []
  | c :: rest =>
      c :: (if bool_decide (rest <> []) && (length rest mod 3 =? 0)%nat
            then sep :: group_digits sep rest
            else group_digits sep rest)
  end.

(** [text.replace(old, new)] for single characters. *)
Definition replace_char (old new : ascii) (s : string) : string :=
  string_of_list_ascii
    ((fun c => if bool_decide (c = old) then new else c) <$> list_ascii_of_string s).

(** [kpi_int] (lines 57-58): [f"{int(n):,}".replace(",", ".")]. *)
Definition kpi_int (n : Z) : string :=
  replace_char "," "."
    ((if (n <? 0)%Z then "-" else "")
     +:+ string_of_list_ascii
           (group_digits "," (list_ascii_of_string (decimal (Z.abs_N n))))).

(** [series.unique()]: the distinct values in the order they first
    appear. *)
Definition unique {A : Type} `{EqDecision A} (l : list A) : list A :=
  drop_duplicates id l.

(** [brands_opts] (line 182): the options of the brand filter. *)
Definition brands_opts (df : list CleanRecord) : list string :=
  sort_by String.leb (unique (brand_name <$> df)).

(** [brands_presentes] (line 298). *)
Definition brands_presentes (dff : list CleanRecord) : list string :=
  unique (brand_name <$> dff).

(** [ordered] (lines 300-301): the preferred brands that are present, in
    the preferred order, then the other brands present. *)
Definition ordered (ordem_brands presentes : list string) : list string :=
  let ordered := filter (fun b => b ∈ presentes) ordem_brands in
  ordered ++ filter (fun b => b ∉ ordered) presentes.

(** The slices of one tab (lines 315-318). *)
Definition brand_refs (rb : list CleanRecord) (brand : string) : list CleanRecord :=
  filter (fun r => brand_name r = brand) rb.

Definition brand_cliente_jogo (cj : list (string * string * string * nat))
    (brand : string) : list (string * string * string * nat) :=
  filter (fun row => row.1.1.1 = brand) cj.

Definition brand_horarios (hs : list (string * Z * nat * string))
    (brand : string) : list (string * Z * nat * string) :=
  filter (fun row => row.1.1.1 = brand) hs.

Definition brand_jogos (jg : list (string * string * nat))
    (brand : string) : list (string * string * nat) :=
  filter (fun row => row.1.1 = brand) jg.

(** The figures of one tab (lines 320-323). *)
Definition total_brand_rollbacks (rb : list CleanRecord) (brand : string) : nat :=
  nunique (reference <$> brand_refs rb brand).

Definition total_brand_usuario_jogo (cj : list (string * string * string * nat))
    (brand : string) : nat :=
  length (brand_cliente_jogo cj brand).

Definition total_brand_horarios (hs : list (string * Z * nat * string))
    (brand : string) : nat :=
  length (brand_horarios hs brand).

Definition total_brand_jogos (jg : list (string * string * nat)) (brand : string) : nat :=
  nunique ((fun row => Some row.1.2) <$> brand_jogos jg brand).

(** [top_brand] (line 333) and the rows shown, [head(top_n)]. *)
Definition top_brand (jg : list (string * string * nat)) (brand : string)
    : list (string * string * nat) :=
  sort_values_desc (brand_jogos jg brand).

Definition head_rows {A : Type} (n : nat) (l : list A) : list A := take n l.

(** * Properties *)

(** Membership in a list written out. *)
Ltac elem_of_literal :=
  repeat first [ apply list_elem_of_here | apply list_elem_of_further ].

(** ** Text *)

Section TextFacts.
Import Text.

Lemma append_cons c s t : String c s +:+ t = String c (s +:+ t).
Proof. done. Qed.

Lemma append_nil_r s : s +:+ "" = s.
Proof. induction s as [|c s IH]; [done|]. by rewrite append_cons, IH. Qed.

Lemma append_assoc s t u : (s +:+ t) +:+ u = s +:+ (t +:+ u).
Proof. induction s as [|c s IH]; [done|]. by rewrite !append_cons, IH. Qed.

(** Induction on the length of a text. *)
Lemma string_length_ind (P : string -> Prop) :
  (forall s, (forall r, (String.length r < String.length s)%nat -> P r) -> P s) ->
  forall s, P s.
Proof.
  intros Hstep s.
  assert (H : forall n r, (String.length r < n)%nat -> P r).
  { induction n as [|n IH]; intros r Hr; [lia|].
    apply Hstep. intros r' Hr'. apply IH. lia. }
  apply (H (S (String.length s))). lia.
Qed.

Lemma lstrip_eq s :
  lstrip s = match skip_space s with Some r => lstrip r | None => s end.
Proof.
  destruct s as [|c1 [|c2 [|c3 s]]]; cbn [lstrip skip_space];
    try done; repeat (case_match; try done).
Qed.

Lemma skip_space_length s r :
  skip_space s = Some r -> (String.length r < String.length s)%nat.
Proof.
  destruct s as [|c1 [|c2 [|c3 s]]]; cbn [skip_space String.length];
    repeat (case_match; try discriminate); intros [= <-];
    cbn [String.length]; lia.
Qed.

(** What is left by [lstrip] does not start with white space. *)
Lemma skip_space_lstrip s : skip_space (lstrip s) = None.
Proof.
  induction s as [s IH] using string_length_ind.
  rewrite lstrip_eq. destruct (skip_space s) as [r|] eqn:Hr; [|done].
  apply IH. by apply skip_space_length.
Qed.

Lemma lstrip_fixed s : skip_space s = None -> lstrip s = s.
Proof. intros Hs. by rewrite lstrip_eq, Hs. Qed.

Lemma lstrip_idemp s : lstrip (lstrip s) = lstrip s.
Proof. apply lstrip_fixed, skip_space_lstrip. Qed.

Lemma skip_space_app p r t :
  skip_space p = Some r -> skip_space (p +:+ t) = Some (r +:+ t).
Proof.
  destruct p as [|c1 [|c2 [|c3 p]]]; rewrite ?append_cons;
    cbn [skip_space]; try done.
  - destruct (is_space c1); [|done]. by intros [= <-].
  - destruct (is_space c1); [by intros [= <-]|].
    destruct (is_space2 c1 c2); [|done]. by intros [= <-].
  - destruct (is_space c1); [by intros [= <-]|].
    destruct (is_space2 c1 c2); [by intros [= <-]|].
    destruct (is_space3 c1 c2 c3); [|done]. by intros [= <-].
Qed.

(** White space before a text is removed by [lstrip]. *)
Lemma lstrip_blank_app p t : lstrip p = "" -> lstrip (p +:+ t) = lstrip t.
Proof.
  induction p as [p IH] using string_length_ind. intros Hp.
  rewrite lstrip_eq in Hp.
  destruct (skip_space p) as [r|] eqn:Hr; [|by subst p].
  rewrite (lstrip_eq (p +:+ t)), (skip_space_app p r t Hr).
  apply IH; [by apply skip_space_length|done].
Qed.

Lemma rstrip_eq c s :
  rstrip (String c s) = if blank (String c s) then "" else String c (rstrip s).
Proof. done. Qed.

(** What [rstrip] removes is white space. *)
Lemma rstrip_split s : exists t, s = rstrip s +:+ t /\ lstrip t = "".
Proof.
  induction s as [|c s IH]; [by exists ""|].
  rewrite rstrip_eq. destruct (blank (String c s)) eqn:Hb.
  - exists (String c s). split; [done|]. by apply bool_decide_eq_true in Hb.
  - destruct IH as (t & Hs & Ht). exists t. split; [|done].
    by rewrite append_cons, <- Hs.
Qed.

Lemma skip_space_rstrip s : skip_space s = None -> skip_space (rstrip s) = None.
Proof.
  intros Hs. destruct (rstrip_split s) as (t & Heq & _).
  destruct (skip_space (rstrip s)) as [r|] eqn:Hr; [|done].
  apply (skip_space_app _ _ t) in Hr. rewrite <- Heq in Hr. congruence.
Qed.

Lemma rstrip_idemp s : rstrip (rstrip s) = rstrip s.
Proof.
  induction s as [|c s IH]; [done|].
  rewrite rstrip_eq. destruct (blank (String c s)) eqn:Hb; [done|].
  rewrite rstrip_eq, IH.
  destruct (blank (String c (rstrip s))) eqn:Hb'; [|done].
  exfalso. apply bool_decide_eq_true in Hb'.
  destruct (rstrip_split s) as (t & Hs & Ht).
  apply (lstrip_blank_app _ t) in Hb'.
  rewrite append_cons, <- Hs, Ht in Hb'.
  apply bool_decide_eq_false in Hb. done.
Qed.

Lemma lstrip_strip s : lstrip (strip s) = strip s.
Proof. apply lstrip_fixed, skip_space_rstrip, skip_space_lstrip. Qed.

Lemma rstrip_strip s : rstrip (strip s) = strip s.
Proof. apply rstrip_idemp. Qed.

Lemma strip_idemp s : strip (strip s) = strip s.
Proof. unfold strip at 1. by rewrite lstrip_strip, rstrip_strip. Qed.

Lemma strip_spaces s : blank s = true -> strip s = "".
Proof. intros Hs%bool_decide_eq_true. unfold strip. by rewrite Hs. Qed.

(** The first byte of a white-space character is not a continuation byte,
    the bytes that follow it are. *)
Lemma skip_space_first c s r : skip_space (String c s) = Some r -> ~ continuation c.
Proof.
  unfold continuation.
  destruct s as [|c2 [|c3 s]]; cbn [skip_space]; unfold is_space, is_space2, is_space3;
    cbv zeta; repeat (case_match; try discriminate); intros _;
    repeat match goal with
    | H : _ = true |- _ =>
        rewrite ?orb_true_iff, ?andb_true_iff, ?orb_true_iff, ?andb_true_iff,
          ?N.eqb_eq, ?N.leb_le in H
    end; lia.
Qed.

Lemma is_space2_second c1 c2 : is_space2 c1 c2 = true -> continuation c2.
Proof.
  unfold is_space2, continuation.
  rewrite !andb_true_iff, !orb_true_iff, !N.eqb_eq. lia.
Qed.

Lemma is_space3_second c1 c2 c3 :
  is_space3 c1 c2 c3 = true -> continuation c2 /\ continuation c3.
Proof.
  unfold is_space3, continuation. cbv zeta.
  rewrite !orb_true_iff, !andb_true_iff, !orb_true_iff, !andb_true_iff,
    !N.eqb_eq, !N.leb_le. lia.
Qed.

(** A text that does not start with white space does not start with it
    when white space follows the text. *)
Lemma skip_space_app_blank s t :
  s <> "" -> skip_space s = None -> lstrip t = "" -> skip_space (s +:+ t) = None.
Proof.
  intros Hne Hs Ht.
  assert (Hfirst : forall c t', t = String c t' -> ~ continuation c).
  { intros c t' ->. rewrite lstrip_eq in Ht.
    destruct (skip_space (String c t')) as [r|] eqn:Hr; [|done].
    by apply skip_space_first in Hr. }
  destruct s as [|c1 [|c2 [|c3 s]]]; [done| | |]; rewrite ?append_cons;
    revert Hs; cbn [skip_space].
  - destruct (is_space c1); [done|]. intros _.
    change ("" +:+ t) with t. destruct t as [|p1 [|p2 t]]; [done| |].
    + destruct (is_space2 c1 p1) eqn:E; [|done].
      apply is_space2_second in E. by destruct (Hfirst _ _ eq_refl E).
    + destruct (is_space2 c1 p1) eqn:E.
      { apply is_space2_second in E. by destruct (Hfirst _ _ eq_refl E). }
      destruct (is_space3 c1 p1 p2) eqn:E3; [|done].
      apply is_space3_second in E3 as [E3 _]. by destruct (Hfirst _ _ eq_refl E3).
  - destruct (is_space c1); [done|]. destruct (is_space2 c1 c2); [done|]. intros _.
    change ("" +:+ t) with t. destruct t as [|p1 t]; [done|].
    destruct (is_space3 c1 c2 p1) eqn:E3; [|done].
    apply is_space3_second in E3 as [_ E3]. by destruct (Hfirst _ _ eq_refl E3).
  - destruct (is_space c1); [done|]. destruct (is_space2 c1 c2); [done|].
    by destruct (is_space3 c1 c2 c3).
Qed.

Lemma lstrip_app_blank s t :
  lstrip t = "" ->
  lstrip (s +:+ t) = if blank s then "" else lstrip s +:+ t.
Proof.
  intros Ht. induction s as [s IH] using string_length_ind.
  destruct (decide (s = "")) as [->|Hne]; [done|].
  unfold blank. rewrite (lstrip_eq s), (lstrip_eq (s +:+ t)).
  destruct (skip_space s) as [r|] eqn:Hr.
  - rewrite (skip_space_app s r t Hr). apply IH. by apply skip_space_length.
  - rewrite skip_space_app_blank by done.
    by rewrite bool_decide_eq_false_2.
Qed.

Lemma blank_app_blank s t : lstrip t = "" -> blank (s +:+ t) = blank s.
Proof.
  intros Ht. unfold blank at 1. rewrite (lstrip_app_blank s t Ht).
  destruct (blank s) eqn:Hb; [done|].
  apply bool_decide_eq_false_2. apply bool_decide_eq_false in Hb.
  destruct (lstrip s); [done|]. by rewrite append_cons.
Qed.

(** White space after a text is removed by [rstrip]. *)
Lemma rstrip_app_blank s t : lstrip t = "" -> rstrip (s +:+ t) = rstrip s.
Proof.
  intros Ht. induction s as [|c s IH].
  - change ("" +:+ t) with t. destruct t as [|c t]; [done|].
    rewrite rstrip_eq. unfold blank. by rewrite Ht.
  - rewrite append_cons, !rstrip_eq, IH.
    by rewrite <- append_cons, blank_app_blank.
Qed.

(** White space around a text is removed by [strip]. *)
Lemma strip_padding pre s post :
  blank pre = true -> blank post = true ->
  strip (pre +:+ s +:+ post) = strip s.
Proof.
  intros Hpre%bool_decide_eq_true Hpost%bool_decide_eq_true. unfold strip.
  rewrite (lstrip_blank_app pre _ Hpre), (lstrip_app_blank s post Hpost).
  destruct (blank s) eqn:Hb.
  - apply bool_decide_eq_true in Hb. by rewrite Hb.
  - by apply rstrip_app_blank.
Qed.

Lemma sub_dot0_end_app p : sub_dot0_end (p +:+ ".0") = p.
Proof.
  induction p as [|c p IH]; [done|].
  change (String c p +:+ ".0") with (String c (p +:+ ".0")).
  cbn [sub_dot0_end]. rewrite IH.
  rewrite !bool_decide_eq_false_2; [done| |].
  - intros Heq. injection Heq as _ Heq. destruct p as [|? [|? [|? ?]]]; discriminate.
  - intros Heq. injection Heq as _ Heq. destruct p as [|? [|? ?]]; discriminate.
Qed.

End TextFacts.

(** ** The brand classifier *)

Section Brand.
Context `{Pandas}.
Import Text.

(** The trimmed, lowercased text [normalize_brand] looks up. *)
Lemma normalize_brand_unfold c :
  normalize_brand c
  = replace_with ["nan"; "none"; ""] sem_brand
      (replace_dict brand_aliases (str_lower (strip (astype_str c)))).
Proof. done. Qed.

Lemma brand_aliases_values t v :
  dict_get brand_aliases t = Some v -> v ∈ ["7K"; "Cassino"; "Vera"].
Proof.
  unfold brand_aliases; cbn [dict_get].
  repeat case_bool_decide; intros [= <-] || intros [=]; set_solver.
Qed.

Lemma brand_aliases_sentinel t :
  t ∈ ["nan"; "none"; ""] -> dict_get brand_aliases t = None.
Proof.
  rewrite !elem_of_cons, elem_of_nil. intros [->|[->|[->|[]]]]; done.
Qed.

Lemma normalize_brand_alias c v :
  dict_get brand_aliases (str_lower (strip (astype_str c))) = Some v ->
  normalize_brand c = v.
Proof.
  intros Hv. rewrite normalize_brand_unfold. unfold replace_dict. rewrite Hv. simpl.
  apply brand_aliases_values in Hv.
  rewrite !elem_of_cons, elem_of_nil in Hv. by destruct Hv as [->|[->|[->|[]]]].
Qed.

Lemma normalize_brand_other c :
  dict_get brand_aliases (str_lower (strip (astype_str c))) = None ->
  normalize_brand c
  = replace_with ["nan"; "none"; ""] sem_brand (str_lower (strip (astype_str c))).
Proof.
  intros Hv. rewrite normalize_brand_unfold. unfold replace_dict. by rewrite Hv.
Qed.

Lemma normalize_brand_canonical v :
  v ∈ ["7K"; "Cassino"; "Vera"] -> normalize_brand (Text v) = v.
Proof.
  rewrite !elem_of_cons, elem_of_nil.
  intros [->|[->|[->|[]]]]; rewrite normalize_brand_unfold; cbn [astype_str].
  - change (strip "7K") with "7K". by rewrite str_lower_ascii.
  - change (strip "Cassino") with "Cassino". by rewrite str_lower_ascii.
  - change (strip "Vera") with "Vera". by rewrite str_lower_ascii.
Qed.

Lemma dict_get_elem_of t v :
  (t, v) ∈ brand_aliases -> dict_get brand_aliases t = Some v.
Proof.
  unfold brand_aliases. rewrite !elem_of_cons, elem_of_nil.
  intros Hin; repeat (destruct Hin as [[= -> ->]|Hin]; [done|]); done.
Qed.

(** The text looked up does not change when the text is lowercased,
    stripped, or put between white space. *)
Lemma brand_key_lower s : str_lower (strip (str_lower s)) = str_lower (strip s).
Proof. by rewrite str_lower_strip, str_lower_idemp. Qed.

Lemma brand_key_fixed s :
  str_lower (strip (str_lower (strip s))) = str_lower (strip s).
Proof. by rewrite brand_key_lower, strip_idemp. Qed.

(** C4 (as amended). Every label the classifier emits, the fallback label
    apart, is classified to itself; two spellings of aliases of one brand,
    whatever their casing and the white space around them, are classified
    to the same canonical label, that of the alias table; and the label of
    a text is that of its lowercase form and that of the text put between
    white space. *)
Theorem normalize_brand_idempotent_but_fallback :
  (forall c : cell,
      normalize_brand c <> sem_brand ->
      normalize_brand (Text (normalize_brand c)) = normalize_brand c)
  /\ (forall (a b : cell) (ka kb v : string),
        (ka, v) ∈ brand_aliases -> (kb, v) ∈ brand_aliases ->
        str_lower (strip (astype_str a)) = ka ->
        str_lower (strip (astype_str b)) = kb ->
        normalize_brand a = v /\ normalize_brand b = v)
  /\ (forall s pre post : string,
        blank pre = true -> blank post = true ->
        normalize_brand (Text (pre +:+ s +:+ post)) = normalize_brand (Text s)
        /\ normalize_brand (Text (str_lower s)) = normalize_brand (Text s)).
Proof.
  split; [|split].
  - intros c Hne.
    destruct (dict_get brand_aliases (str_lower (strip (astype_str c)))) as [v|] eqn:Hv.
    + rewrite (normalize_brand_alias c v Hv).
      apply normalize_brand_canonical, (brand_aliases_values _ _ Hv).
    + rewrite (normalize_brand_other c Hv) in *.
      unfold replace_with in *. case_bool_decide as Hs; [done|].
      rewrite normalize_brand_unfold. cbn [astype_str].
      rewrite brand_key_fixed.
      unfold replace_dict. rewrite Hv. simpl.
      unfold replace_with. by rewrite bool_decide_eq_false_2.
  - intros a b ka kb v Ha Hb Hka Hkb.
    split; apply normalize_brand_alias.
    + rewrite Hka. by apply dict_get_elem_of.
    + rewrite Hkb. by apply dict_get_elem_of.
  - intros s pre post Hpre Hpost. rewrite !normalize_brand_unfold. cbn [astype_str].
    by rewrite strip_padding, brand_key_lower.
Qed.

(** C7. The classifier looks up the trimmed, lowercased text: when it is
    empty or one of the sentinel texts "nan" and "none", and so for a
    missing value and for a text of white space only, the label is
    "Sem Brand"; when it is not and the alias table does not have it, the
    label is that text itself; and no label is empty. *)
Theorem normalize_brand_unknown_and_fallback (c : cell) :
  let t := str_lower (strip (astype_str c)) in
  (t ∈ ["nan"; "none"; ""] -> normalize_brand c = "Sem Brand")
  /\ (blank (astype_str c) = true -> normalize_brand c = "Sem Brand")
  /\ (dict_get brand_aliases t = None -> t ∉ ["nan"; "none"; ""] ->
      normalize_brand c = t)
  /\ normalize_brand c <> "".
Proof.
  intros t.
  assert (Hsent : t ∈ ["nan"; "none"; ""] -> normalize_brand c = "Sem Brand").
  { intros Ht. rewrite (normalize_brand_other c (brand_aliases_sentinel _ Ht)).
    fold t. unfold replace_with. by rewrite bool_decide_eq_true_2. }
  repeat split.
  - exact Hsent.
  - intros Hb. apply Hsent. subst t. rewrite (strip_spaces _ Hb).
    rewrite str_lower_ascii by done. set_solver.
  - intros Hnone Hns. rewrite (normalize_brand_other c Hnone). fold t.
    unfold replace_with. by rewrite bool_decide_eq_false_2.
  - destruct (dict_get brand_aliases t) as [v|] eqn:Hv.
    + rewrite (normalize_brand_alias c v Hv).
      apply brand_aliases_values in Hv.
      rewrite !elem_of_cons, elem_of_nil in Hv. by destruct Hv as [->|[->|[->|[]]]].
    + destruct (decide (t ∈ ["nan"; "none"; ""])) as [Ht|Ht].
      * by rewrite (Hsent Ht).
      * rewrite (normalize_brand_other c Hv). fold t.
        unfold replace_with. rewrite bool_decide_eq_false_2 by done.
        intros ->. apply Ht. set_solver.
Qed.

End Brand.

(** The fallback label is emitted, for a missing brand, and is not
    classified to itself: it is lowercased like any unknown text. *)
Lemma normalize_brand_fallback_not_fixed :
  normalize_brand (H := Iso.pandas) NaN = "Sem Brand"
  /\ normalize_brand (H := Iso.pandas) (Text "Sem Brand") = "sem brand"
  /\ normalize_brand (H := Iso.pandas) (Text (normalize_brand (H := Iso.pandas) NaN))
     <> normalize_brand (H := Iso.pandas) NaN.
Proof. by repeat split. Qed.

Lemma normalize_brand_idempotent_but_fallback_witness :
  normalize_brand (H := Iso.pandas) (Text "FooBar") <> sem_brand
  /\ normalize_brand (H := Iso.pandas)
       (Text (normalize_brand (H := Iso.pandas) (Text "FooBar"))) = "foobar"
  /\ normalize_brand (H := Iso.pandas) (Text (" 7KBet" +:+ Text.NBSP)) = "7K"
  /\ normalize_brand (H := Iso.pandas) (Text (Text.IDSP +:+ "7kbetBR ")) = "7K".
Proof.
  pose proof (normalize_brand_idempotent_but_fallback (H := Iso.pandas))
    as (Hfix & Halias & _).
  assert (Hne : normalize_brand (H := Iso.pandas) (Text "FooBar") <> sem_brand)
    by (vm_compute; discriminate).
  split; [exact Hne|]. split; [exact (Hfix (Text "FooBar") Hne)|].
  apply (Halias (Text (" 7KBet" +:+ Text.NBSP)) (Text (Text.IDSP +:+ "7kbetBR "))
           "7kbet" "7kbetbr" "7K");
    [elem_of_literal | elem_of_literal | reflexivity | reflexivity].
Defined.

Lemma normalize_brand_unknown_and_fallback_witness :
  normalize_brand (H := Iso.pandas) (Text "FooBar") = "foobar"
  /\ normalize_brand (H := Iso.pandas) (Text (" " +:+ Text.NBSP)) = "Sem Brand"
  /\ normalize_brand (H := Iso.pandas) (Text "None") = "Sem Brand"
  /\ normalize_brand (H := Iso.pandas) NaN = "Sem Brand".
Proof.
  split; [|split; [|split]].
  - pose proof (normalize_brand_unknown_and_fallback (H := Iso.pandas) (Text "FooBar"))
      as (_ & _ & Hother & _).
    apply Hother; [reflexivity|].
    change ("foobar" ∉ ["nan"; "none"; ""]).
    rewrite !elem_of_cons, elem_of_nil. intros [|[|[|[]]]]; discriminate.
  - pose proof (normalize_brand_unknown_and_fallback (H := Iso.pandas)
                  (Text (" " +:+ Text.NBSP))) as (_ & Hblank & _).
    by apply Hblank.
  - pose proof (normalize_brand_unknown_and_fallback (H := Iso.pandas) (Text "None"))
      as (Hsent & _).
    apply Hsent. change ("none" ∈ ["nan"; "none"; ""]). elem_of_literal.
  - pose proof (normalize_brand_unknown_and_fallback (H := Iso.pandas) NaN) as (Hsent & _).
    apply Hsent. change ("nan" ∈ ["nan"; "none"; ""]). elem_of_literal.
Defined.

(** ** The normalizer *)

(** C5 (as amended). [game_name] and [reference]: the text "nan" or "None",
    exactly, becomes missing, and so do the missing values that print so;
    any other value is kept as its trimmed text. [user_id]: a ".0" ending
    the text is removed first, then "nan", "None" or "NaT", exactly, becomes
    missing, and any other value is kept as its trimmed text. The comparison
    is made before trimming and is case-sensitive. *)
Theorem coerce_exact_sentinels (c : cell) :
  (astype_str c ∈ ["nan"; "None"] -> coerce_text c = None)
  /\ (astype_str c ∉ ["nan"; "None"] ->
      coerce_text c = Some (Text.strip (astype_str c)))
  /\ (Text.sub_dot0_end (astype_str c) ∈ ["nan"; "None"; "NaT"] ->
      coerce_user_id c = None)
  /\ (Text.sub_dot0_end (astype_str c) ∉ ["nan"; "None"; "NaT"] ->
      coerce_user_id c = Some (Text.strip (Text.sub_dot0_end (astype_str c))))
  /\ (forall p, astype_str c = p +:+ ".0" ->
      coerce_user_id c = str_strip (replace_with_na ["nan"; "None"; "NaT"] p)).
Proof.
  unfold coerce_text, coerce_user_id, replace_with_na.
  split; [|split; [|split; [|split]]].
  - intros Hs. by rewrite bool_decide_eq_true_2.
  - intros Hs. by rewrite bool_decide_eq_false_2.
  - intros Hs. by rewrite bool_decide_eq_true_2.
  - intros Hs. by rewrite bool_decide_eq_false_2.
  - intros p ->. by rewrite sub_dot0_end_app.
Qed.

Lemma coerce_exact_sentinels_witness :
  coerce_text NaN = None
  /\ coerce_text (Text (" refA" +:+ Text.NBSP)) = Some "refA"
  /\ coerce_user_id NaT = None
  /\ coerce_user_id (Text (Text.IDSP +:+ "u1")) = Some "u1"
  /\ coerce_user_id (Num "12345.0") = Some "12345".
Proof.
  split; [|split; [|split; [|split]]].
  - pose proof (coerce_exact_sentinels NaN) as (Hsent & _).
    apply Hsent. change ("nan" ∈ ["nan"; "None"]). elem_of_literal.
  - pose proof (coerce_exact_sentinels (Text (" refA" +:+ Text.NBSP))) as (_ & Hkept & _).
    apply Hkept.
    apply (bool_decide_unpack _). vm_compute. exact I.
  - pose proof (coerce_exact_sentinels NaT) as (_ & _ & Hsent & _).
    apply Hsent. change ("NaT" ∈ ["nan"; "None"; "NaT"]). elem_of_literal.
  - pose proof (coerce_exact_sentinels (Text (Text.IDSP +:+ "u1"))) as (_ & _ & _ & Hkept & _).
    apply Hkept.
    apply (bool_decide_unpack _). vm_compute. exact I.
  - pose proof (coerce_exact_sentinels (Num "12345.0")) as (_ & _ & _ & _ & Hdot).
    apply (Hdot "12345"). reflexivity.
Defined.

(** The sentinel texts in another casing, or with spaces around them, are
    kept as text, and "NaT" is not a sentinel of [game_name] and
    [reference]. *)
Lemma coerce_keeps_other_casings :
  coerce_user_id (Text "NAN") = Some "NAN"
  /\ coerce_user_id (Text "none") = Some "none"
  /\ coerce_text (Text "NONE") = Some "NONE"
  /\ coerce_text (Text " nan ") = Some "nan"
  /\ coerce_text (Text "NaT") = Some "NaT".
Proof. by repeat split. Qed.

(** ** Column validation *)

Section Columns.
Context `{Pandas}.
Import Text.

Lemma occurs_refl s : occurs s s.
Proof.
  exists "", "". change ("" +:+ s +:+ "") with (s +:+ ""). by rewrite append_nil_r.
Qed.

Lemma occurs_append_r needle pre s : occurs needle s -> occurs needle (pre +:+ s).
Proof.
  intros (a & b & ->). exists (pre +:+ a), b. by rewrite append_assoc.
Qed.

Lemma occurs_append_l needle s post : occurs needle s -> occurs needle (s +:+ post).
Proof.
  intros (a & b & ->). exists a, (b +:+ post). by rewrite !append_assoc.
Qed.

Lemma occurs_join sep name l :
  name ∈ l -> occurs name (join sep l).
Proof.
  induction l as [|x l IH]; [by intros ?%elem_of_nil|].
  intros [->|Hin]%elem_of_cons.
  - destruct l; [apply occurs_refl|]. apply occurs_append_l, occurs_refl.
  - destruct l as [|y l]; [by apply elem_of_nil in Hin|].
    change (join sep (x :: y :: l)) with (x +:+ sep +:+ join sep (y :: l)).
    by apply occurs_append_r, occurs_append_r, IH.
Qed.

(** Every missing name is quoted in the message. *)
Lemma missing_message_names missing req name :
  name ∈ missing -> occurs ("'" +:+ name +:+ "'") (missing_message missing req).
Proof.
  intros Hin. unfold missing_message, repr_list.
  apply occurs_append_r, occurs_append_l, occurs_append_r, occurs_append_l.
  apply occurs_join, list_elem_of_fmap. by exists name.
Qed.

Lemma cols_lower_fold_None (m : gmap string string) cols k :
  foldl (fun m c => <[strip (str_lower c) := c]> m) m cols !! k = None
  <-> m !! k = None /\ Forall (fun c => strip (str_lower c) <> k) cols.
Proof.
  revert m. induction cols as [|c cols IH]; intros m; simpl.
  - split; [by intros ?; split|by intros [? _]].
  - rewrite IH, lookup_insert_None, Forall_cons. tauto.
Qed.

Lemma cols_lower_fold_Some (m : gmap string string) cols k c :
  foldl (fun m c => <[strip (str_lower c) := c]> m) m cols !! k = Some c ->
  m !! k = Some c \/ (c ∈ cols /\ strip (str_lower c) = k).
Proof.
  revert m. induction cols as [|x cols IH]; intros m; simpl; [by left|].
  intros [Hm|[Hin Hk]]%IH.
  - apply lookup_insert_Some in Hm as [[<- <-]|[_ Hm]]; [|by left].
    right. split; [apply list_elem_of_here|done].
  - right. split; [by apply list_elem_of_further|done].
Qed.

Lemma cols_lower_None df name :
  cols_lower (columns (norm_cols df)) !! name = None
  <-> Forall (fun label => ~ header_matches name label) (columns df).
Proof.
  unfold cols_lower. rewrite cols_lower_fold_None, lookup_empty. simpl.
  rewrite Forall_fmap. unfold header_matches. simpl. tauto.
Qed.

Lemma require_cols_missing df req :
  filter (fun c => cols_lower (columns (norm_cols df)) !! c = None) req
  = not_found (columns df) req.
Proof. apply list_filter_iff. intros name. apply cols_lower_None. Qed.

Lemma pipeline_not_error cfg b df msg : pipeline cfg b df <> StopError msg.
Proof. unfold pipeline. by repeat case_bool_decide. Qed.

(** C8. The labels of the table are compared with the five required
    names up to case and to white space around them: a label matches a
    name when its stripped lowercase form is the name, and it does so
    whatever white space is put around it and when it is lowercased. When
    some required
    name matches no label, [require_cols] raises an error whose message
    quotes every such name, and the run stops with that error, which
    depends on the labels only; columns that are not required play no
    part. When every required name matches a label, no error is raised:
    each name is mapped to a label of the table that matches it. *)
Theorem require_cols_reports_all_missing cfg b (df : DataFrame) :
  let missing := not_found (columns df) required in
  (forall name, name ∈ missing <->
      name ∈ required /\ forall label, label ∈ columns df -> ~ header_matches name label)
  /\ (missing <> [] ->
      require_cols (norm_cols df) required = inl (missing_message missing required)
      /\ main cfg b df = StopError (missing_message missing required)
      /\ forall name, name ∈ missing ->
           Text.occurs ("'" +:+ name +:+ "'") (missing_message missing required))
  /\ (missing = [] ->
      (exists colmap,
          require_cols (norm_cols df) required = inr colmap
          /\ colmap.*1 = required
          /\ forall name label, (name, label) ∈ colmap ->
               label ∈ columns (norm_cols df) /\ header_matches name label)
      /\ forall msg, main cfg b df <> StopError msg)
  /\ (forall name label pre post,
        Text.blank pre = true -> Text.blank post = true ->
        (header_matches name label <-> str_lower (Text.strip label) = name)
        /\ (header_matches name (pre +:+ label +:+ post) <-> header_matches name label)
        /\ (header_matches name (str_lower label) <-> header_matches name label)).
Proof.
  intros missing.
  assert (Hreq : forall req,
    require_cols (norm_cols df) req
    = if bool_decide (not_found (columns df) req <> [])
      then inl (missing_message (not_found (columns df) req) req)
      else inr ((fun k => (k, default "" (cols_lower (columns (norm_cols df)) !! k))) <$> req)).
  { intros req. unfold require_cols. by rewrite require_cols_missing. }
  split; [|split; [|split]].
  - intros name. unfold missing, not_found.
    rewrite list_elem_of_filter, Forall_forall. tauto.
  - intros Hne.
    assert (Hr : require_cols (norm_cols df) required
                 = inl (missing_message missing required)).
    { rewrite Hreq. fold missing. by rewrite bool_decide_eq_true_2. }
    split; [exact Hr|]. split.
    + unfold main. by rewrite Hr.
    + intros name. apply missing_message_names.
  - intros Hnil.
    assert (Hr : require_cols (norm_cols df) required
                 = inr ((fun k => (k, default "" (cols_lower (columns (norm_cols df)) !! k)))
                        <$> required)).
    { rewrite Hreq. fold missing. rewrite bool_decide_eq_false_2; [done|].
      intros Hc. by apply Hc. }
    split.
    + eexists. split; [exact Hr|]. split.
      * rewrite <- list_fmap_compose. apply list_fmap_id.
      * intros name label [k [Heq Hk]]%list_elem_of_fmap. revert Heq.
        destruct (cols_lower (columns (norm_cols df)) !! k) as [c|] eqn:Hc;
          intros [= -> ->].
        -- apply cols_lower_fold_Some in Hc as [Hc|[Hin Hkey]];
             [by rewrite lookup_empty in Hc|].
           split; [done|]. unfold header_matches.
           apply list_elem_of_fmap in Hin as (l0 & -> & _).
           by rewrite strip_idemp.
        -- exfalso. apply cols_lower_None in Hc.
           assert (k ∈ missing) as Hin; [|by rewrite Hnil in Hin; apply elem_of_nil in Hin].
           unfold missing, not_found. by apply list_elem_of_filter.
    + intros msg. unfold main. rewrite Hr.
      destruct (select_columns _ _); [apply pipeline_not_error|done].
  - intros name label pre post Hpre Hpost. unfold header_matches.
    rewrite strip_padding by done.
    rewrite !str_lower_strip, !strip_idemp, str_lower_idemp. tauto.
Qed.

End Columns.

(** ** Tables *)

Section DropDuplicates.
Context {A K : Type} `{EqDecision K} (key : A -> K).

(** Only membership in [seen] matters. *)
Lemma drop_duplicates_from_seen seen1 seen2 l :
  (forall r, r ∈ l -> key r ∈ seen1 <-> key r ∈ seen2) ->
  drop_duplicates_from key seen1 l = drop_duplicates_from key seen2 l.
Proof.
  revert seen1 seen2. induction l as [|r l IH]; intros seen1 seen2 Hs; simpl; [done|].
  rewrite (bool_decide_ext _ _ (Hs r (list_elem_of_here _ _))).
  case_bool_decide.
  - apply IH. intros x Hx. apply Hs. by apply list_elem_of_further.
  - f_equal. apply IH. intros x Hx. rewrite !elem_of_cons.
    rewrite (Hs x) by (by apply list_elem_of_further). done.
Qed.

(** The rows kept for one key: none when the key was seen, else the first
    row with that key. *)
Lemma drop_duplicates_from_group seen l k :
  filter (fun r => key r = k) (drop_duplicates_from key seen l)
  = if decide (k ∈ seen) then [] else take 1 (filter (fun r => key r = k) l).
Proof.
  revert seen. induction l as [|r l IH]; intros seen; simpl.
  - by destruct (decide (k ∈ seen)).
  - case_bool_decide as Hr.
    + rewrite IH. destruct (decide (k ∈ seen)) as [|Hk]; [done|].
      rewrite (filter_cons_False _ r); [done|]. by intros <-.
    + destruct (decide (key r = k)) as [<-|Hne].
      * rewrite !filter_cons_True by done. rewrite IH.
        rewrite decide_True by apply list_elem_of_here.
        by rewrite decide_False.
      * rewrite !filter_cons_False by done. rewrite IH.
        destruct (decide (k ∈ seen)) as [Hk|Hk].
        -- rewrite decide_True; [done|]. by apply list_elem_of_further.
        -- rewrite decide_False; [done|].
           rewrite elem_of_cons. intros [->|]; done.
Qed.

Lemma drop_duplicates_group l k :
  filter (fun r => key r = k) (drop_duplicates key l)
  = take 1 (filter (fun r => key r = k) l).
Proof.
  unfold drop_duplicates. rewrite drop_duplicates_from_group.
  rewrite decide_False; [done|]. apply not_elem_of_nil.
Qed.

Lemma drop_duplicates_from_sublist seen l :
  drop_duplicates_from key seen l `sublist_of` l.
Proof.
  revert seen. induction l as [|r l IH]; intros seen; simpl; [done|].
  case_bool_decide; [apply sublist_cons, IH|apply sublist_skip, IH].
Qed.

Lemma drop_duplicates_from_NoDup seen l :
  NoDup (key <$> drop_duplicates_from key seen l)
  /\ forall r, r ∈ drop_duplicates_from key seen l -> key r ∉ seen.
Proof.
  revert seen. induction l as [|r l IH]; intros seen; simpl.
  - split; [constructor|]. by intros r ?%elem_of_nil.
  - case_bool_decide as Hr; [apply IH|].
    destruct (IH (key r :: seen)) as [Hnd Hseen]. split.
    + rewrite fmap_cons. apply NoDup_cons. split; [|done].
      intros (x & Hx & Hin)%list_elem_of_fmap.
      apply (Hseen x Hin). rewrite <- Hx. apply list_elem_of_here.
    + intros x [->|Hx]%elem_of_cons; [done|].
      intros Hin. apply (Hseen x Hx). by apply list_elem_of_further.
Qed.

Lemma drop_duplicates_NoDup l : NoDup (key <$> drop_duplicates key l).
Proof. apply drop_duplicates_from_NoDup. Qed.

Lemma drop_duplicates_sublist l : drop_duplicates key l `sublist_of` l.
Proof. apply drop_duplicates_from_sublist. Qed.

Lemma drop_duplicates_elem_of l r : r ∈ drop_duplicates key l -> r ∈ l.
Proof. intros Hr. eapply elem_of_sublist; [done|apply drop_duplicates_sublist]. Qed.

(** Filtering commutes with deduplication when the filter does not tell
    apart two rows of the table with the same key. *)
Lemma drop_duplicates_from_filter (P : A -> Prop) `{forall r, Decision (P r)} seen l :
  (forall r1 r2, r1 ∈ l -> r2 ∈ l -> key r1 = key r2 -> P r1 -> P r2) ->
  drop_duplicates_from key seen (filter P l)
  = filter P (drop_duplicates_from key seen l).
Proof.
  revert seen. induction l as [|r l IH]; intros seen HP; [done|].
  assert (HP' : forall r1 r2, r1 ∈ l -> r2 ∈ l -> key r1 = key r2 -> P r1 -> P r2).
  { intros r1 r2 H1 H2. apply HP; by apply list_elem_of_further. }
  destruct (decide (P r)) as [Hr|Hr].
  - rewrite filter_cons_True by done. simpl. case_bool_decide; [by apply IH|].
    rewrite filter_cons_True by done. f_equal. by apply IH.
  - rewrite filter_cons_False by done. simpl. case_bool_decide; [by apply IH|].
    rewrite filter_cons_False by done. rewrite <- IH by done.
    apply drop_duplicates_from_seen.
    intros x [Px Hx]%list_elem_of_filter. rewrite elem_of_cons.
    split; [tauto|]. intros [Heq|]; [|done]. exfalso. apply Hr.
    apply (HP x r); [by apply list_elem_of_further|apply list_elem_of_here|done..].
Qed.

Lemma drop_duplicates_filter (P : A -> Prop) `{forall r, Decision (P r)} l :
  (forall r1 r2, r1 ∈ l -> r2 ∈ l -> key r1 = key r2 -> P r1 -> P r2) ->
  drop_duplicates key (filter P l) = filter P (drop_duplicates key l).
Proof. apply drop_duplicates_from_filter. Qed.

End DropDuplicates.

Section Sorting.
Context {A : Type} (leb : A -> A -> bool).

Lemma sort_insert_Permutation x l : sort_insert leb x l ≡ₚ x :: l.
Proof.
  induction l as [|y l IH]; simpl; [done|].
  destruct (leb x y); [done|]. rewrite IH. apply Permutation_swap.
Qed.

Lemma sort_by_Permutation l : sort_by leb l ≡ₚ l.
Proof.
  unfold sort_by. induction l as [|x l IH]; simpl; [done|].
  by rewrite sort_insert_Permutation, IH.
Qed.

End Sorting.

Lemma sort_values_desc_Permutation {K : Type} (l : list (K * nat)) :
  sort_values_desc l ≡ₚ l.
Proof. apply sort_by_Permutation. Qed.

Section GroupBy.
Context {A K V : Type} `{EqDecision K}.
Implicit Types (key : A -> option K) (agg : list A -> V).

Lemma groupby_elem_of leb key agg l k v :
  (k, v) ∈ groupby leb key agg l
  <-> (exists r, r ∈ l /\ key r = Some k) /\ v = agg (group key k l).
Proof.
  unfold groupby. rewrite list_elem_of_fmap. split.
  - intros (k' & [= <- ->] & Hk). split; [|done].
    rewrite sort_by_Permutation, elem_of_remove_dups in Hk.
    by apply list_elem_of_omap in Hk.
  - intros [Hk ->]. exists k. split; [done|].
    rewrite sort_by_Permutation, elem_of_remove_dups. by apply list_elem_of_omap.
Qed.

Lemma groupby_keys leb key agg l :
  (groupby leb key agg l).*1 ≡ₚ remove_dups (omap key l).
Proof.
  unfold groupby. rewrite <- list_fmap_compose.
  rewrite (list_fmap_ext _ id (sort_by leb (remove_dups (omap key l))))
    by done.
  rewrite list_fmap_id. apply sort_by_Permutation.
Qed.

Lemma groupby_keys_NoDup leb key agg l : NoDup (groupby leb key agg l).*1.
Proof. rewrite groupby_keys. apply NoDup_remove_dups. Qed.

(** The values of a grouped table add up to the sum, over the distinct
    keys, of the aggregates. *)
Lemma groupby_sum leb key (agg : list A -> nat) l :
  sum_list (groupby leb key agg l).*2
  = sum_list ((fun k => agg (group key k l)) <$> remove_dups (omap key l)).
Proof.
  unfold groupby. rewrite <- !list_fmap_compose.
  assert (Hperm : forall (g : K -> nat) (l1 l2 : list K), l1 ≡ₚ l2 ->
            sum_list (g <$> l1) = sum_list (g <$> l2)).
  { intros g l1 l2 Hp. by rewrite Hp. }
  apply (Hperm (fun k => agg (group key k l))), sort_by_Permutation.
Qed.

End GroupBy.

Section Keyed.
Context {K V : Type} `{EqDecision K}.

(** In a table with distinct keys, the rows with a given key are the one
    row found with it. *)
Lemma NoDup_fst_filter (l : list (K * V)) k v :
  NoDup l.*1 -> (k, v) ∈ l -> filter (fun row => row.1 = k) l = [(k, v)].
Proof.
  induction l as [|[k' v'] l IH]; [by intros _ ?%elem_of_nil|].
  rewrite fmap_cons, NoDup_cons. simpl. intros [Hk' Hnd] Hin.
  assert (Hnone : forall l', k ∉ l'.*1 -> filter (fun row : K * V => row.1 = k) l' = []).
  { intros l' Hl'. induction l' as [|[a b] l' IHl']; [done|].
    rewrite fmap_cons, not_elem_of_cons in Hl'. destruct Hl' as [Hne Hl'].
    rewrite filter_cons_False by (simpl in *; intros ->; by apply Hne). auto. }
  apply elem_of_cons in Hin as [[= <- <-]|Hin].
  - rewrite filter_cons_True by done. by rewrite Hnone.
  - rewrite filter_cons_False.
    + by apply IH.
    + simpl. intros ->. apply Hk'. apply list_elem_of_fmap. by exists (k, v).
Qed.

End Keyed.

Section Partition.
Context {A K : Type} `{EqDecision K} (key : A -> option K).

Lemma sum_list_bump (f : K -> nat) k0 ks :
  NoDup ks -> k0 ∈ ks ->
  sum_list ((fun k => if decide (k0 = k) then S (f k) else f k) <$> ks)
  = S (sum_list (f <$> ks)).
Proof.
  induction ks as [|k ks IH]; [by intros _ ?%elem_of_nil|].
  rewrite NoDup_cons, elem_of_cons, !fmap_cons. simpl. intros [Hk Hnd] Hin.
  destruct (decide (k0 = k)) as [->|Hne].
  - simpl. f_equal. f_equal. f_equal.
    apply list_fmap_ext. intros i x Hx.
    rewrite decide_False; [done|]. intros <-.
    by apply list_elem_of_lookup_2 in Hx.
  - destruct Hin as [->|Hin]; [done|].
    rewrite IH by done. lia.
Qed.

(** The groups partition the rows that have a key. *)
Lemma group_sizes ks l :
  NoDup ks -> (forall k, k ∈ omap key l -> k ∈ ks) ->
  sum_list ((fun k => length (group key k l)) <$> ks)
  = length (filter (fun r => is_Some (key r)) l).
Proof.
  intros Hnd. induction l as [|r l IH]; intros Hks.
  - simpl. clear. induction ks as [|k ks IHks]; [done|].
    rewrite fmap_cons. simpl. apply IHks.
  - destruct (key r) as [k0|] eqn:Hr.
    + rewrite filter_cons_True by (by rewrite Hr). simpl.
      rewrite <- IH.
      * rewrite <- (sum_list_bump _ k0) by
          (done || (apply Hks; simpl; rewrite Hr; apply list_elem_of_here)).
        f_equal. apply list_fmap_ext. intros i k _. unfold group.
        destruct (decide (k0 = k)) as [->|Hne].
        -- by rewrite filter_cons_True.
        -- rewrite filter_cons_False; [done|]. congruence.
      * intros k Hk. apply Hks. simpl. rewrite Hr. by apply list_elem_of_further.
    + rewrite filter_cons_False by (rewrite Hr; by intros [? ?]).
      rewrite <- IH.
      * apply f_equal, list_fmap_ext. intros i k _. unfold group.
        rewrite filter_cons_False; [done|]. congruence.
      * intros k Hk. apply Hks. simpl. by rewrite Hr.
Qed.

End Partition.

(** ** The deduplicator *)

(** C1. In the table the deduplicator is given, take the [N >= 1] rows
    with one [(brand_name, reference)] pair: the fact table has exactly one
    row with that pair, and it is the first of them in the order of the
    table, with all its columns. No two rows of the fact table have the same
    pair, and the fact table keeps the order of the table. *)
Theorem refs_brand_one_row_per_key (dff : list CleanRecord)
    (k : string * option string) (N : nat) :
  length (filter (fun r => key_brand_ref r = k) dff) = N ->
  1 <= N ->
  exists first,
    head (filter (fun r => key_brand_ref r = k) dff) = Some first
    /\ filter (fun r => key_brand_ref r = k) (refs_brand dff) = [first]
    /\ NoDup (key_brand_ref <$> refs_brand dff)
    /\ refs_brand dff `sublist_of` dff.
Proof.
  intros HN H1. unfold refs_brand. rewrite drop_duplicates_group.
  destruct (filter (fun r => key_brand_ref r = k) dff) as [|first rest];
    [simpl in HN; lia|].
  exists first. split; [done|]. split; [done|].
  split; [apply drop_duplicates_NoDup|apply drop_duplicates_sublist].
Qed.

Lemma refs_brand_one_row_per_key_witness :
  let row u := mkClean (Some u) (Some "g1") (Some "refA") (Some 0%Z) "7K" in
  let other := mkClean (Some "u9") (Some "g2") (Some "refB") (Some 0%Z) "7K" in
  exists first,
    head (filter (fun r => key_brand_ref r = ("7K", Some "refA"))
            [row "u1"; other; row "u2"; row "u3"]) = Some first
    /\ filter (fun r => key_brand_ref r = ("7K", Some "refA"))
         (refs_brand [row "u1"; other; row "u2"; row "u3"]) = [first]
    /\ NoDup (key_brand_ref <$> refs_brand [row "u1"; other; row "u2"; row "u3"])
    /\ refs_brand [row "u1"; other; row "u2"; row "u3"]
         `sublist_of` [row "u1"; other; row "u2"; row "u3"].
Proof.
  intros row other.
  apply (refs_brand_one_row_per_key [row "u1"; other; row "u2"; row "u3"]
           ("7K", Some "refA") 3); [reflexivity|lia].
Defined.

Section PipelineFacts.
Context `{Pandas}.

Lemma filter_all {A} (P : A -> Prop) `{forall x, Decision (P x)} (l : list A) :
  (forall x, P x) -> filter P l = l.
Proof.
  intros HP. induction l as [|x l IH]; [done|].
  by rewrite filter_cons_True, IH.
Qed.

Lemma filter_comm {A} (P Q : A -> Prop) `{forall x, Decision (P x)}
    `{forall x, Decision (Q x)} (l : list A) :
  filter P (filter Q l) = filter Q (filter P l).
Proof. rewrite !list_filter_filter. apply list_filter_iff. tauto. Qed.

(** A filter applied on a condition. *)
Lemma filter_when {A} (C : Prop) `{Decision C} (P : A -> Prop)
    `{forall x, Decision (P x)} (l : list A) :
  (if bool_decide C then filter P l else l) = filter (fun x => C -> P x) l.
Proof.
  case_bool_decide.
  - apply list_filter_iff. tauto.
  - symmetry. apply filter_all. tauto.
Qed.

Lemma apply_filters_passes cfg df : apply_filters cfg df = filter (passes cfg) df.
Proof.
  unfold apply_filters, passes. cbv zeta.
  rewrite !filter_when, !list_filter_filter.
  apply list_filter_iff. intros r. tauto.
Qed.

Lemma remove_invalid_elem_of df r :
  r ∈ remove_invalid df <-> r ∈ df /\ ~ invalid_row r.
Proof.
  unfold remove_invalid, invalid_row. rewrite !list_elem_of_filter.
  destruct (reference r) as [[|c s]|], (created_at r) as [t|]; simpl;
    split; intros; destruct_and?; repeat split; eauto;
    try lia; try (by intros [|[|]]);
    try match goal with Hn : ~ _ |- _ => exfalso; apply Hn; by eauto end;
    try match goal with Hs : is_Some None |- _ => by destruct Hs end.
Qed.

Lemma remove_invalid_drop df1 r df2 :
  invalid_row r -> remove_invalid (df1 ++ r :: df2) = remove_invalid (df1 ++ df2).
Proof.
  intros Hr. unfold remove_invalid.
  rewrite !filter_app, !filter_cons.
  destruct (decide (is_Some (reference r) /\ is_Some (created_at r)))
    as [[[s Hs] [t Ht]]|Hn]; [|done].
  rewrite filter_cons_False; [done|].
  rewrite Hs. simpl. destruct Hr as [Hr|[Hr|Hr]]; simplify_eq/=. lia.
Qed.

Lemma apply_filters_elem_of cfg df r : r ∈ apply_filters cfg df -> r ∈ df.
Proof. rewrite apply_filters_passes, list_elem_of_filter. tauto. Qed.

(** C2. A row whose reference is missing or empty after cleaning, or whose
    timestamp did not parse, is removed before anything else is computed:
    the outcome of the run, with the fact table and every aggregate, is
    the outcome for the table without that row, and no row of the fact
    table is such a row. *)
Theorem invalid_rows_discarded cfg b (df1 df2 : list CleanRecord) (r : CleanRecord) :
  invalid_row r ->
  remove_invalid (df1 ++ r :: df2) = remove_invalid (df1 ++ df2)
  /\ pipeline cfg b (df1 ++ r :: df2) = pipeline cfg b (df1 ++ df2)
  /\ (forall t r', pipeline cfg b (df1 ++ r :: df2) = Rendered t ->
        r' ∈ t_refs_brand t ->
        ~ invalid_row r' /\ r' <> r /\ r' ∈ df1 ++ df2).
Proof.
  intros Hr.
  pose proof (remove_invalid_drop df1 r df2 Hr) as Hdrop.
  split; [done|]. split.
  - unfold pipeline. by rewrite Hdrop.
  - intros t r'. unfold pipeline. rewrite Hdrop.
    repeat case_bool_decide; intros [= <-]. simpl.
    intros Hin%drop_duplicates_elem_of%apply_filters_elem_of%remove_invalid_elem_of.
    destruct Hin as [Hin Hvalid]. repeat split; [done| |done].
    by intros ->.
Qed.

End PipelineFacts.

Section FilterAndDedup.
Context `{Pandas}.

Lemma passes_key_brand_ref cfg (df : list CleanRecord) :
  (f_user cfg = "" /\ f_game cfg = "")
  \/ (forall r1 r2, r1 ∈ df -> r2 ∈ df -> key_brand_ref r1 = key_brand_ref r2 ->
        user_id r1 = user_id r2 /\ game_name r1 = game_name r2) ->
  forall r1 r2, r1 ∈ df -> r2 ∈ df -> key_brand_ref r1 = key_brand_ref r2 ->
    passes cfg r1 -> passes cfg r2.
Proof.
  intros Hcase r1 r2 H1 H2 Hkey. unfold passes.
  assert (Hb : brand_name r1 = brand_name r2) by (by injection Hkey).
  rewrite Hb. destruct Hcase as [[-> ->]|Hsame]; [tauto|].
  destruct (Hsame r1 r2 H1 H2 Hkey) as [-> ->]. tauto.
Qed.

(** C3 (as amended). The script filters, then deduplicates. When only the
    brand filter is set, or when the rows of the table with the same
    [(brand_name, reference)] pair have the same [user_id] and
    [game_name], the fact table and the aggregates made from it are those
    obtained by deduplicating the whole table first and filtering
    afterwards. *)
Theorem filter_then_dedup_is_dedup_then_filter cfg (df : list CleanRecord) :
  (f_user cfg = "" /\ f_game cfg = "")
  \/ (forall r1 r2, r1 ∈ df -> r2 ∈ df -> key_brand_ref r1 = key_brand_ref r2 ->
        user_id r1 = user_id r2 /\ game_name r1 = game_name r2) ->
  let impl := refs_brand (apply_filters cfg df) in
  let spec := apply_filters cfg (refs_brand df) in
  impl = spec
  /\ (forall w, horarios w impl = horarios w spec)
  /\ jogos impl = jogos spec
  /\ top_jogos_geral (jogos impl) = top_jogos_geral (jogos spec)
  /\ total_rollbacks impl = total_rollbacks spec.
Proof.
  intros Hcase impl spec.
  assert (Heq : impl = spec).
  { unfold impl, spec, refs_brand. rewrite !apply_filters_passes.
    apply drop_duplicates_filter. by apply passes_key_brand_ref. }
  by rewrite Heq.
Qed.

(** The other deduplicated view: its key has the three filtered columns,
    so that filtering and deduplicating commute on every table. *)
Lemma client_game_fact_filter_commutes cfg (df : list CleanRecord) :
  let present r := is_Some (user_id r) /\ is_Some (game_name r) /\ is_Some (reference r) in
  drop_duplicates key_brand_user_game_ref (filter present (apply_filters cfg df))
  = apply_filters cfg (drop_duplicates key_brand_user_game_ref (filter present df)).
Proof.
  intros present. rewrite !apply_filters_passes.
  rewrite filter_comm.
  apply drop_duplicates_filter.
  intros r1 r2 _ _ [= Hb Hu Hg _]. unfold passes. by rewrite Hb, Hu, Hg.
Qed.

End FilterAndDedup.

(** With a user filter, filtering first keeps a row that deduplicating first
    has dropped: two rows with one [(brand_name, reference)] pair and
    different users, the filter asking for the second user. *)
Lemma filter_then_dedup_differs :
  let r1 := mkClean (Some "u1") (Some "g1") (Some "refA") (Some 0%Z) "7K" in
  let r2 := mkClean (Some "u2") (Some "g1") (Some "refA") (Some 0%Z) "7K" in
  let cfg := mkFilters [] "u2" "" in
  refs_brand (apply_filters (H := Iso.pandas) cfg [r1; r2]) = [r2]
  /\ apply_filters (H := Iso.pandas) cfg (refs_brand [r1; r2]) = []
  /\ jogos (refs_brand (apply_filters (H := Iso.pandas) cfg [r1; r2])) = [("7K", "g1", 1)]
  /\ jogos (apply_filters (H := Iso.pandas) cfg (refs_brand [r1; r2])) = []
  /\ refs_brand (apply_filters (H := Iso.pandas) cfg [r1; r2])
     <> apply_filters (H := Iso.pandas) cfg (refs_brand [r1; r2]).
Proof. by repeat split. Qed.

Lemma filter_then_dedup_is_dedup_then_filter_witness :
  let r1 := mkClean (Some "u1") (Some "g1") (Some "refA") (Some 0%Z) "7K" in
  let r2 := mkClean (Some "u2") (Some "g1") (Some "refA") (Some 0%Z) "Vera" in
  let cfg := mkFilters ["Vera"] "" "" in
  refs_brand (apply_filters (H := Iso.pandas) cfg [r1; r2; r1; r2])
  = apply_filters (H := Iso.pandas) cfg (refs_brand [r1; r2; r1; r2]).
Proof.
  intros r1 r2 cfg.
  apply (filter_then_dedup_is_dedup_then_filter (H := Iso.pandas) cfg [r1; r2; r1; r2]).
  left. split; reflexivity.
Defined.

(** ** Counting *)

Section Counting.

Lemma nunique_NoDup {V : Type} `{EqDecision V} (l : list (option V)) :
  NoDup l -> Forall is_Some l -> nunique l = length l.
Proof.
  unfold nunique. induction l as [|o l IH]; [done|].
  rewrite NoDup_cons, Forall_cons. intros [Ho Hnd] [[v ->] Hs].
  change (length (remove_dups (v :: omap id l)) = S (length l)).
  cbn [remove_dups].
  destruct (decide_rel elem_of v (omap id l)) as [Hin|Hnin].
  - exfalso. apply list_elem_of_omap in Hin as (x & Hx & Hid).
    unfold id in Hid. subst x. by apply Ho.
  - simpl. f_equal. by apply IH.
Qed.

(** In a table without two rows with the same brand and reference, the
    references of one brand are all different. *)
Lemma brand_group_references (rb : list CleanRecord) b :
  NoDup (key_brand_ref <$> rb) ->
  NoDup (reference <$> group (fun r => Some (brand_name r)) b rb).
Proof.
  intros Hnd. unfold group.
  apply (NoDup_fmap_1 (pair b)). rewrite <- list_fmap_compose.
  rewrite (list_fmap_ext _ key_brand_ref).
  - eapply sublist_NoDup; [exact Hnd|apply fmap_sublist, sublist_filter].
  - intros i r Hr%list_elem_of_lookup_2%list_elem_of_filter.
    destruct Hr as [[= <-] _]. done.
Qed.

End Counting.

Section Kpi.
Context `{Pandas}.

(** C10. The total of rollbacks, the sum over the brands of the number
    of distinct references of the brand in the fact table, is the number
    of rows of the fact table. *)
Theorem total_rollbacks_is_fact_rows cfg (df : list CleanRecord) :
  let fact := refs_brand (apply_filters cfg (remove_invalid df)) in
  total_rollbacks fact = length fact.
Proof.
  intros fact. unfold total_rollbacks. rewrite groupby_sum.
  assert (Hvalid : forall r, r ∈ fact -> is_Some (reference r)).
  { intros r Hr%drop_duplicates_elem_of%apply_filters_elem_of%remove_invalid_elem_of.
    destruct Hr as [_ Hr]. unfold invalid_row in Hr.
    destruct (reference r); [done|]. exfalso. apply Hr. by left. }
  rewrite (list_fmap_ext _
    (fun b => length (group (fun r : CleanRecord => Some (brand_name r)) b fact))).
  - rewrite group_sizes.
    + by rewrite filter_all.
    + apply NoDup_remove_dups.
    + intros k. by rewrite elem_of_remove_dups.
  - intros i b _. rewrite nunique_NoDup.
    + by rewrite length_fmap.
    + apply brand_group_references, drop_duplicates_NoDup.
    + apply Forall_fmap, Forall_forall. intros r [_ Hr]%list_elem_of_filter.
      by apply Hvalid.
Qed.

End Kpi.

(** C6. For a game of the per-game-by-brand table, the global table has
    exactly one row, and its count is the sum of the counts of the game in
    the per-game-by-brand table, over the brands. *)
Theorem top_jogos_geral_sums_brands (rb : list CleanRecord) (g : string) :
  (exists b n, (b, g, n) ∈ jogos rb) ->
  exists total,
    filter (fun row => row.1 = g) (top_jogos_geral (jogos rb)) = [(g, total)]
    /\ total = sum_list (filter (fun row => row.1.2 = g) (jogos rb)).*2.
Proof.
  intros (b & n & Hin).
  set (jg := jogos rb) in *.
  exists (sum_list (filter (fun row => row.1.2 = g) jg).*2).
  split; [|done].
  apply NoDup_fst_filter.
  - unfold top_jogos_geral. rewrite sort_values_desc_Permutation.
    apply groupby_keys_NoDup.
  - unfold top_jogos_geral. rewrite sort_values_desc_Permutation.
    apply groupby_elem_of. split.
    + by exists (b, g, n).
    + unfold group. do 2 f_equal. apply list_filter_iff.
      intros row. split; [by intros ->|by intros [= ->]].
Qed.

Lemma top_jogos_geral_sums_brands_witness :
  let row b g ref := mkClean (Some "u") (Some g) (Some ref) (Some 0%Z) b in
  let rb := [row "7K" "g1" "a"; row "Vera" "g1" "b"; row "Vera" "g1" "c"; row "7K" "g2" "d"] in
  exists total,
    filter (fun row => row.1 = "g1") (top_jogos_geral (jogos rb)) = [("g1", total)]
    /\ total = sum_list (filter (fun row => row.1.2 = "g1") (jogos rb)).*2.
Proof.
  intros row rb.
  apply (top_jogos_geral_sums_brands rb "g1").
  exists "Vera", 2. vm_compute. elem_of_literal.
Defined.

(** ** Time buckets *)

Section TimestampFacts.
Import Timestamp.
Local Open Scope Z_scope.









End TimestampFacts.

Section Buckets.
Import Timestamp.
Local Open Scope Z_scope.








End Buckets.



(** ** Runs on concrete tables *)

Lemma invalid_rows_discarded_witness :
  let good := mkClean (Some "u1") (Some "g1") (Some "refA") (Some 0%Z) "7K" in
  let no_ref := mkClean (Some "u1") (Some "g1") None (Some 0%Z) "7K" in
  let cfg := mkFilters [] "" "" in
  pipeline (H := Iso.pandas) cfg Timestamp.Hora ([good] ++ no_ref :: [good])
  = pipeline (H := Iso.pandas) cfg Timestamp.Hora ([good] ++ [good]).
Proof.
  intros good no_ref cfg.
  pose proof (invalid_rows_discarded (H := Iso.pandas) cfg Timestamp.Hora
                [good] [good] no_ref) as (_ & Hrun & _).
  - by left.
  - exact Hrun.
Defined.

Lemma require_cols_reports_all_missing_witness :
  let cfg := mkFilters [] "" "" in
  let short := mkDataFrame [" User_ID "; "game_name"; "x"] [[NaN; NaN; NaN]] in
  let full := mkDataFrame ["USER_ID" +:+ Text.NBSP; "Game_Name "; Text.IDSP +:+ "reference";
                           "created_at"; "Brand_Name"; "x"] [] in
  main (H := Iso.pandas) cfg Timestamp.Hora short
  = StopError (missing_message ["reference"; "created_at"; "brand_name"] required)
  /\ exists colmap, require_cols (H := Iso.pandas) (norm_cols full) required = inr colmap.
Proof.
  intros cfg short full. split.
  - pose proof (require_cols_reports_all_missing (H := Iso.pandas) cfg Timestamp.Hora short)
      as (_ & Hmissing & _).
    destruct Hmissing as (_ & Hmain & _); [by vm_compute|exact Hmain].
  - pose proof (require_cols_reports_all_missing (H := Iso.pandas) cfg Timestamp.Hora full)
      as (_ & _ & Hfound & _).
    destruct Hfound as ((colmap & Hcolmap & _) & _); [by vm_compute|].
    by exists colmap.
Defined.

(** The scenario of the specification: two equal rows of brand "7kbet" and
    one of brand "CASSINO" give two fact rows, two rows of count 1 in the
    per-user-game table, and the games [g1] and [g2] with count 1. *)
Example end_to_end :
  let df := mkDataFrame ["user_id"; "game_name"; "reference"; "created_at"; "brand_name"]
    [ [Text "u1"; Text "g1"; Text "refA"; Text "2024-03-01T10:15:42Z"; Text "7kbet"];
      [Text "u1"; Text "g1"; Text "refA"; Text "2024-03-01T10:15:42Z"; Text "7kbet"];
      [Text "u1"; Text "g2"; Text "refB"; Text "2024-03-01T11:20:00Z"; Text "CASSINO"] ] in
  exists t,
    main (H := Iso.pandas) (mkFilters [] "" "") Timestamp.Hora df = Rendered t
    /\ (fun r => (brand_name r, reference r)) <$> t_refs_brand t
       = [("7K", Some "refA"); ("Cassino", Some "refB")]
    /\ t_cliente_jogo t = [("7K", "u1", "g1", 1); ("Cassino", "u1", "g2", 1)]
    /\ t_top_jogos_geral t = [("g1", 1); ("g2", 1)]
    /\ t_total_rollbacks t = 2.
Proof. intros df. eexists. split; [by vm_compute|]. by repeat split. Qed.

(** * Further properties *)

(** ** Order of the result tables *)

Section SortBy.
Context {A : Type} (leb : A -> A -> bool).
Hypothesis leb_total : forall x y, leb x y = false -> leb y x = true.

Lemma sort_insert_HdRel a x l :
  leb a x = true -> HdRel (fun u v => leb u v = true) a l ->
  HdRel (fun u v => leb u v = true) a (sort_insert leb x l).
Proof.
  intros Hax Hal. destruct l as [|y l]; simpl; [by constructor|].
  destruct (leb x y); constructor; [done|]. by inversion Hal.
Qed.

Lemma sort_insert_Sorted x l :
  Sorted (fun u v => leb u v = true) l ->
  Sorted (fun u v => leb u v = true) (sort_insert leb x l).
Proof.
  induction 1 as [|y l Hl IH Hhd]; simpl; [by repeat constructor|].
  destruct (leb x y) eqn:Hxy.
  - constructor; [by constructor|by constructor].
  - constructor; [done|]. apply sort_insert_HdRel; [by apply leb_total|done].
Qed.

Lemma sort_by_Sorted l : Sorted (fun u v => leb u v = true) (sort_by leb l).
Proof.
  unfold sort_by. induction l as [|x l IH]; simpl; [constructor|].
  by apply sort_insert_Sorted.
Qed.

End SortBy.

Lemma sort_values_desc_sorted {K : Type} (l : list (K * nat)) :
  StronglySorted (fun a b => b.2 <= a.2) (sort_values_desc l).
Proof.
  assert (Htrans : Transitive (fun a b : K * nat => b.2 <= a.2)).
  { intros a b c Hab Hbc. lia. }
  apply Sorted_StronglySorted; [done|].
  assert (Hs : Sorted (fun a b : K * nat => (b.2 <=? a.2)%nat = true) (sort_values_desc l)).
  { apply sort_by_Sorted. intros x y Hxy. apply Nat.leb_gt in Hxy. apply Nat.leb_le. lia. }
  induction Hs as [|a l' Hl IH Hhd]; constructor; [done|].
  destruct Hhd as [|b l'' Hab]; constructor. by apply Nat.leb_le.
Qed.

Lemma StronglySorted_filter {A : Type} (R : relation A) (P : A -> Prop)
    `{forall x, Decision (P x)} (l : list A) :
  StronglySorted R l -> StronglySorted R (filter P l).
Proof.
  induction 1 as [|x l Hl IH Hx]; [constructor|].
  rewrite filter_cons. destruct (decide (P x)); [|done].
  constructor; [done|]. rewrite Forall_forall in *.
  intros y [_ Hy]%list_elem_of_filter. by apply Hx.
Qed.

(** X1. The four aggregate tables are in descending order of their
    counts. *)
Theorem aggregate_tables_sorted (dff rb : list CleanRecord) (w : Z) :
  StronglySorted (fun a b => b.2 <= a.2) (cliente_jogo dff)
  /\ StronglySorted (fun a b => b.1.2 <= a.1.2) (horarios w rb)
  /\ StronglySorted (fun a b => b.2 <= a.2) (jogos rb)
  /\ StronglySorted (fun a b => b.2 <= a.2) (top_jogos_geral (jogos rb)).
Proof.
  split; [apply sort_values_desc_sorted|].
  split; [|split; apply sort_values_desc_sorted].
  unfold horarios.
  eapply (StronglySorted_fmap _ (fun a b : string * Z * nat => b.2 <= a.2));
    [|apply sort_values_desc_sorted].
  by intros x y Hxy.
Qed.

(** X2. Of a ranking cut by [head(n)], the global one or the one of a
    brand, every row shown has a count at least that of every row left
    out, and [min n (length)] rows are shown. *)
Theorem head_rows_are_highest (jg : list (string * string * nat)) (brand : string)
    (n : nat) :
  (forall x y, x ∈ head_rows n (top_jogos_geral jg) ->
               y ∈ drop n (top_jogos_geral jg) -> y.2 <= x.2)
  /\ (forall x y, x ∈ head_rows n (top_brand jg brand) ->
               y ∈ drop n (top_brand jg brand) -> y.2 <= x.2)
  /\ length (head_rows n (top_jogos_geral jg)) = min n (length (top_jogos_geral jg))
  /\ length (head_rows n (top_brand jg brand)) = min n (length (brand_jogos jg brand)).
Proof.
  assert (Hcut : forall (K : Type) (l : list (K * nat)) x y,
            x ∈ take n (sort_values_desc l) -> y ∈ drop n (sort_values_desc l) ->
            y.2 <= x.2).
  { intros K l x y Hx Hy.
    pose proof (sort_values_desc_sorted l) as Hs.
    rewrite <- (take_drop n (sort_values_desc l)) in Hs.
    apply (StronglySorted_app_1_elem_of _ _ _ x y Hs Hx Hy). }
  unfold head_rows. split; [apply Hcut|]. split; [apply Hcut|].
  split; [apply length_take|].
  rewrite length_take. unfold top_brand.
  by rewrite (Permutation_length (sort_values_desc_Permutation _)).
Qed.

Lemma head_rows_are_highest_witness :
  let jg := [("7K", "g1", 5); ("Vera", "g1", 2); ("7K", "g2", 4); ("7K", "g3", 1)] in
  ("g3", 1).2 <= ("g2", 4).2.
Proof.
  intros jg.
  pose proof (head_rows_are_highest jg "7K" 2) as (Hglobal & _).
  apply (Hglobal ("g2", 4) ("g3", 1)); vm_compute; elem_of_literal.
Defined.

(** X3. The ranking of a tab has the rows of the brand in the
    per-game-by-brand table, which are already in descending order of
    count: sorting them again leaves the column of counts as it is. *)
Theorem top_brand_same_counts (rb : list CleanRecord) (brand : string) :
  top_brand (jogos rb) brand ≡ₚ brand_jogos (jogos rb) brand
  /\ StronglySorted (fun a b => b.2 <= a.2) (brand_jogos (jogos rb) brand)
  /\ (top_brand (jogos rb) brand).*2 = (brand_jogos (jogos rb) brand).*2.
Proof.
  assert (Hperm : top_brand (jogos rb) brand ≡ₚ brand_jogos (jogos rb) brand)
    by apply sort_values_desc_Permutation.
  assert (Hsorted : StronglySorted (fun a b : string * string * nat => b.2 <= a.2)
                      (brand_jogos (jogos rb) brand)).
  { apply (StronglySorted_filter _ _). apply sort_values_desc_sorted. }
  split; [done|]. split; [done|].
  assert (Hanti : AntiSymm (=) (fun x y : nat => y <= x)).
  { intros x y Hxy Hyx. lia. }
  apply (StronglySorted_unique (fun x y : nat => y <= x)).
  - eapply (StronglySorted_fmap _ (fun a b : string * string * nat => b.2 <= a.2));
      [|apply sort_values_desc_sorted]. by intros x y Hxy.
  - eapply (StronglySorted_fmap _ (fun a b : string * string * nat => b.2 <= a.2));
      [|exact Hsorted]. by intros x y Hxy.
  - by apply fmap_Permutation.
Qed.

(** ** Totals of the views *)

Section Weights.
Context {A K : Type} `{EqDecision K} (key : A -> option K) (f : A -> nat).

Lemma sum_list_add (g : K -> nat) (n : nat) k0 ks :
  NoDup ks -> k0 ∈ ks ->
  sum_list ((fun k => if decide (k0 = k) then n + g k else g k) <$> ks)
  = n + sum_list (g <$> ks).
Proof.
  induction ks as [|k ks IH]; [by intros _ ?%elem_of_nil|].
  rewrite NoDup_cons, elem_of_cons, !fmap_cons. simpl. intros [Hk Hnd] Hin.
  destruct (decide (k0 = k)) as [->|Hne].
  - rewrite <- Nat.add_assoc. do 2 f_equal.
    f_equal. apply list_fmap_ext. intros i x Hx.
    rewrite decide_False; [done|]. intros <-.
    by apply list_elem_of_lookup_2 in Hx.
  - destruct Hin as [->|Hin]; [done|]. rewrite IH by done. lia.
Qed.

(** The sums of the groups add up to the sum over the rows that have a
    key. *)
Lemma group_sums ks l :
  NoDup ks -> (forall k, k ∈ omap key l -> k ∈ ks) ->
  sum_list ((fun k => sum_list (f <$> group key k l)) <$> ks)
  = sum_list (f <$> filter (fun r => is_Some (key r)) l).
Proof.
  intros Hnd. induction l as [|r l IH]; intros Hks.
  - simpl. clear. induction ks as [|k ks IHks]; [done|].
    rewrite fmap_cons. simpl. apply IHks.
  - destruct (key r) as [k0|] eqn:Hr.
    + rewrite filter_cons_True by (by rewrite Hr). rewrite fmap_cons. simpl.
      rewrite <- IH.
      * rewrite <- (sum_list_add _ (f r) k0) by
          (done || (apply Hks; simpl; rewrite Hr; apply list_elem_of_here)).
        f_equal. apply list_fmap_ext. intros i k _. unfold group.
        destruct (decide (k0 = k)) as [->|Hne].
        -- by rewrite filter_cons_True.
        -- rewrite filter_cons_False; [done|]. congruence.
      * intros k Hk. apply Hks. simpl. rewrite Hr. by apply list_elem_of_further.
    + rewrite filter_cons_False by (rewrite Hr; by intros [? ?]).
      rewrite <- IH.
      * apply f_equal, list_fmap_ext. intros i k _. unfold group.
        rewrite filter_cons_False; [done|]. congruence.
      * intros k Hk. apply Hks. simpl. by rewrite Hr.
Qed.

End Weights.

Lemma sum_list_Permutation (l1 l2 : list nat) : l1 ≡ₚ l2 -> sum_list l1 = sum_list l2.
Proof. induction 1; simpl; lia. Qed.

Lemma sum_list_ones {A : Type} (l : list A) : sum_list ((fun _ => 1) <$> l) = length l.
Proof. induction l; simpl; auto. Qed.

(** The counts of a grouped table add up to the number of rows that have
    a key and a reference. *)
Lemma groupby_count_total {K : Type} `{EqDecision K} leb
    (key : CleanRecord -> option K) (l : list CleanRecord) :
  sum_list (sort_values_desc (groupby leb key count_reference l)).*2
  = length (filter (fun r => is_Some (key r))
              (filter (fun r => is_Some (reference r)) l)).
Proof.
  rewrite (sum_list_Permutation _ (groupby leb key count_reference l).*2)
    by (by rewrite sort_values_desc_Permutation).
  rewrite groupby_sum.
  rewrite <- (group_sizes key (remove_dups (omap key l))).
  - f_equal. apply list_fmap_ext. intros i k _.
    unfold count_reference, group. by rewrite filter_comm.
  - apply NoDup_remove_dups.
  - intros k (r & [_ Hr]%list_elem_of_filter & Hk)%list_elem_of_omap.
    apply elem_of_remove_dups, list_elem_of_omap. by exists r.
Qed.

Lemma filter_Forall_id {A : Type} (P : A -> Prop) `{forall x, Decision (P x)} (l : list A) :
  Forall P l -> filter P l = l.
Proof.
  induction 1 as [|x l Hx Hl IH]; [done|]. by rewrite filter_cons_True, IH.
Qed.

(** In a table with distinct brand and reference pairs and no missing
    reference, the total of rollbacks is the number of rows. *)
Lemma total_rollbacks_distinct (rb : list CleanRecord) :
  NoDup (key_brand_ref <$> rb) -> Forall (fun r => is_Some (reference r)) rb ->
  total_rollbacks rb = length rb.
Proof.
  intros Hnd Hvalid. unfold total_rollbacks. rewrite groupby_sum.
  rewrite (list_fmap_ext _
    (fun b => length (group (fun r : CleanRecord => Some (brand_name r)) b rb))).
  - rewrite group_sizes.
    + by rewrite filter_all.
    + apply NoDup_remove_dups.
    + intros k. by rewrite elem_of_remove_dups.
  - intros i b _. rewrite nunique_NoDup.
    + by rewrite length_fmap.
    + by apply brand_group_references.
    + apply Forall_fmap, Forall_forall. intros r [_ Hr]%list_elem_of_filter.
      rewrite Forall_forall in Hvalid. by apply Hvalid.
Qed.

Section Totals.
Context `{Pandas}.

Lemma fact_rows_valid cfg (df : list CleanRecord) r :
  r ∈ refs_brand (apply_filters cfg (remove_invalid df)) ->
  is_Some (reference r) /\ is_Some (created_at r).
Proof.
  intros Hr%drop_duplicates_elem_of%apply_filters_elem_of%remove_invalid_elem_of.
  destruct Hr as [_ Hr]. unfold invalid_row in Hr.
  destruct (reference r), (created_at r); split; try done; exfalso; apply Hr; auto.
Qed.

(** X4. Every row of the fact table is counted in exactly one time
    bucket: the counts of the per-time-bucket table add up to the number of
    rows of the fact table, which is the total of rollbacks. *)
Theorem horarios_counts_every_fact_once cfg (df : list CleanRecord) (w : Z) :
  let fact := refs_brand (apply_filters cfg (remove_invalid df)) in
  sum_list ((fun row => row.1.2) <$> horarios w fact) = length fact
  /\ sum_list ((fun row => row.1.2) <$> horarios w fact) = total_rollbacks fact.
Proof.
  intros fact.
  assert (Hsum : sum_list ((fun row => row.1.2) <$> horarios w fact) = length fact).
  { unfold horarios. rewrite <- list_fmap_compose.
    change (sum_list (horarios_counts w fact).*2 = length fact).
    unfold horarios_counts. rewrite groupby_count_total.
    rewrite !filter_Forall_id; [done| |].
    - apply Forall_forall. intros r Hr. by apply (fact_rows_valid cfg df).
    - rewrite filter_Forall_id.
      + apply Forall_forall. intros r Hr.
        destruct (fact_rows_valid cfg df r Hr) as [_ [t Ht]]. by rewrite Ht.
      + apply Forall_forall. intros r Hr. by apply (fact_rows_valid cfg df). }
  split; [done|]. rewrite Hsum. symmetry. apply total_rollbacks_distinct.
  - apply drop_duplicates_NoDup.
  - apply Forall_forall. intros r Hr. by apply (fact_rows_valid cfg df).
Qed.

End Totals.

(** X5. The counts of the per-game-by-brand table add up to the number of
    fact rows with a game and a reference, and the totals of the per-game
    table add up to the same number. *)
Theorem jogos_counts_every_game_row_once (rb : list CleanRecord) :
  sum_list (jogos rb).*2
  = length (filter (fun r => is_Some (game_name r) /\ is_Some (reference r)) rb)
  /\ sum_list (top_jogos_geral (jogos rb)).*2 = sum_list (jogos rb).*2.
Proof.
  split.
  - unfold jogos. rewrite groupby_count_total.
    rewrite !list_filter_filter. f_equal. apply list_filter_iff.
    intros r. destruct (game_name r); simpl; split; intros; destruct_and?;
      repeat split; eauto; by destruct_and?.
  - unfold top_jogos_geral.
    rewrite (sum_list_Permutation _ _
               (fmap_Permutation snd _ _ (sort_values_desc_Permutation _))).
    rewrite groupby_sum.
    rewrite (group_sums (fun row : string * string * nat => Some row.1.2) snd).
    + by rewrite filter_all.
    + apply NoDup_remove_dups.
    + intros k. by rewrite elem_of_remove_dups.
Qed.

(** X6. The counts of the per-user-game table add up to the number of
    rows with user, game and reference that differ in brand, user, game or
    reference. *)
Theorem cliente_jogo_counts_every_fact_once (dff : list CleanRecord) :
  sum_list (cliente_jogo dff).*2
  = length (drop_duplicates key_brand_user_game_ref
              (filter (fun r => is_Some (user_id r) /\ is_Some (game_name r)
                                /\ is_Some (reference r)) dff)).
Proof.
  unfold cliente_jogo. rewrite groupby_count_total.
  set (facts := drop_duplicates _ _).
  assert (Hfacts : forall r, r ∈ facts ->
            is_Some (user_id r) /\ is_Some (game_name r) /\ is_Some (reference r)).
  { intros r Hr%drop_duplicates_elem_of%list_elem_of_filter. tauto. }
  rewrite (filter_Forall_id (fun r => is_Some (reference r))).
  - rewrite filter_Forall_id; [done|]. apply Forall_forall. intros r Hr.
    destruct (Hfacts r Hr) as ([u Hu] & [g Hg] & _). by rewrite Hu, Hg.
  - apply Forall_forall. intros r Hr. by apply Hfacts.
Qed.

(** ** The rows of the views *)

Lemma jogos_keys_NoDup (rb : list CleanRecord) : NoDup (jogos rb).*1.
Proof.
  unfold jogos. rewrite sort_values_desc_Permutation. apply groupby_keys_NoDup.
Qed.

(** X7. The per-game-by-brand table has one row for each pair of a brand
    and a game that some fact row has, and no other row; its count is the
    number of fact rows of that brand and game that have a reference. *)
Theorem jogos_rows_exact (rb : list CleanRecord) (b g : string) (n : nat) :
  ((b, g, n) ∈ jogos rb
   <-> (exists r, r ∈ rb /\ brand_name r = b /\ game_name r = Some g)
       /\ n = length (filter (fun r => brand_name r = b /\ game_name r = Some g
                                       /\ is_Some (reference r)) rb))
  /\ NoDup (jogos rb).*1.
Proof.
  split.
  - unfold jogos. rewrite sort_values_desc_Permutation, groupby_elem_of.
    assert (Hkey : forall r : CleanRecord,
              (g' ← game_name r; Some (brand_name r, g')) = Some (b, g)
              <-> brand_name r = b /\ game_name r = Some g).
    { intros r. destruct (game_name r); simpl; split; intros; destruct_and?;
        simplify_eq; done. }
    assert (Hcount : count_reference
              (group (fun r => g' ← game_name r; Some (brand_name r, g')) (b, g)
                 (filter (fun r => is_Some (game_name r)) rb))
            = length (filter (fun r => brand_name r = b /\ game_name r = Some g
                                       /\ is_Some (reference r)) rb)).
    { unfold count_reference, group. rewrite !list_filter_filter. f_equal.
      apply list_filter_iff. intros r. rewrite Hkey.
      split; [tauto|]. intros (-> & Hg & Hr). rewrite Hg. eauto. }
    rewrite Hcount. split.
    + intros [(r & [_ Hr]%list_elem_of_filter & Hk%Hkey) ->]. split; [|done].
      exists r. tauto.
    + intros [(r & Hr & Hb & Hg) ->]. split; [|done].
      exists r. split; [|by apply Hkey].
      apply list_elem_of_filter. split; [by rewrite Hg|done].
  - apply jogos_keys_NoDup.
Qed.

Lemma jogos_rows_exact_witness :
  let row b g ref := mkClean (Some "u") (Some g) (Some ref) (Some 0%Z) b in
  let rb := [row "7K" "g1" "a"; row "Vera" "g1" "b"; row "Vera" "g1" "c"] in
  ("Vera", "g1", 2) ∈ jogos rb.
Proof.
  intros row rb.
  apply (proj1 (jogos_rows_exact rb "Vera" "g1" 2)). split.
  - exists (row "Vera" "g1" "b"). split; [elem_of_literal|done].
  - reflexivity.
Defined.

(** In a table with distinct brand and game pairs, the games of one brand
    are all different. *)
Lemma brand_group_games (jg : list (string * string * nat)) b :
  NoDup jg.*1 ->
  NoDup ((fun row : string * string * nat => Some row.1.2)
           <$> filter (fun row => row.1.1 = b) jg).
Proof.
  intros Hnd.
  apply (NoDup_fmap_1 (fun o : option string => (b, default "" o))).
  rewrite <- list_fmap_compose.
  rewrite (list_fmap_ext _ fst (filter (fun row => row.1.1 = b) jg)).
  - eapply sublist_NoDup; [exact Hnd|apply fmap_sublist, sublist_filter].
  - intros i [[b' g'] n'] Hr%list_elem_of_lookup_2%list_elem_of_filter.
    simpl in *. destruct Hr as [-> _]. done.
Qed.

Lemma total_brand_jogos_length (jg : list (string * string * nat)) b :
  NoDup jg.*1 -> total_brand_jogos jg b = length (brand_jogos jg b).
Proof.
  intros Hnd. unfold total_brand_jogos, brand_jogos. rewrite nunique_NoDup.
  - by rewrite length_fmap.
  - by apply brand_group_games.
  - apply Forall_fmap, Forall_forall. by eauto.
Qed.

Lemma total_jogos_distinct (jg : list (string * string * nat)) :
  NoDup jg.*1 -> total_jogos jg = length jg.
Proof.
  intros Hnd. unfold total_jogos. rewrite groupby_sum.
  rewrite (list_fmap_ext _
    (fun b => length (group (fun row : string * string * nat => Some row.1.1) b jg))).
  - rewrite group_sizes.
    + by rewrite filter_all.
    + apply NoDup_remove_dups.
    + intros k. by rewrite elem_of_remove_dups.
  - intros i b _.
    assert (Hg : group (fun row : string * string * nat => Some row.1.1) b jg
                 = brand_jogos jg b).
    { apply list_filter_iff. intros row. split; [by intros [= ->]|by intros ->]. }
    rewrite Hg. by apply total_brand_jogos_length.
Qed.

(** X8. The figure "Jogos" is the number of rows of the per-game-by-brand
    table: a game is counted once for each brand it has rollbacks in. *)
Theorem total_jogos_is_jogos_rows (rb : list CleanRecord) :
  total_jogos (jogos rb) = length (jogos rb)
  /\ forall b, total_brand_jogos (jogos rb) b = length (brand_jogos (jogos rb) b).
Proof.
  split.
  - apply total_jogos_distinct, jogos_keys_NoDup.
  - intros b. apply total_brand_jogos_length, jogos_keys_NoDup.
Qed.

(** Deduplication keeps a row for every key of the table. *)
Lemma drop_duplicates_key_elem {A K : Type} `{EqDecision K} (key : A -> K) l r :
  r ∈ l -> exists r', r' ∈ drop_duplicates key l /\ key r' = key r.
Proof.
  intros Hr. pose proof (drop_duplicates_group key l (key r)) as Hg.
  assert (Hin : r ∈ filter (fun x => key x = key r) l) by (by apply list_elem_of_filter).
  destruct (filter (fun x => key x = key r) l) as [|x rest];
    [by apply elem_of_nil in Hin|].
  simpl in Hg. exists x.
  assert (Hx : x ∈ filter (fun r0 => key r0 = key r) (drop_duplicates key l))
    by (rewrite Hg; apply list_elem_of_here).
  apply list_elem_of_filter in Hx. tauto.
Qed.

Lemma cliente_jogo_keys_NoDup (dff : list CleanRecord) : NoDup (cliente_jogo dff).*1.
Proof.
  unfold cliente_jogo. rewrite sort_values_desc_Permutation. apply groupby_keys_NoDup.
Qed.

(** X9. The per-user-game table has exactly one row for each brand, user
    and game of a row of the filtered table that has the three of user,
    game and reference, and no other row: no two of its rows have the same
    brand, user and game; its count is the number of distinct references
    of the rows of that brand, user and game. *)
Theorem cliente_jogo_rows_exact (dff : list CleanRecord) (b u g : string) (n : nat) :
  ((b, u, g, n) ∈ cliente_jogo dff
   <-> (exists r, r ∈ dff /\ brand_name r = b /\ user_id r = Some u
                  /\ game_name r = Some g /\ is_Some (reference r))
       /\ n = nunique (reference <$>
                 filter (fun r => brand_name r = b /\ user_id r = Some u
                                  /\ game_name r = Some g) dff))
  /\ NoDup (cliente_jogo dff).*1
  /\ (forall n', (b, u, g, n) ∈ cliente_jogo dff -> (b, u, g, n') ∈ cliente_jogo dff ->
        n' = n).
Proof.
  split; [|split; [apply cliente_jogo_keys_NoDup|]].
  2:{ intros n' Hn Hn'.
      pose proof (NoDup_fst_filter _ _ _ (cliente_jogo_keys_NoDup dff) Hn) as Hf.
      assert (Hin : (b, u, g, n') ∈ filter (fun row => row.1 = (b, u, g)) (cliente_jogo dff))
        by (by apply list_elem_of_filter).
      rewrite Hf in Hin. apply list_elem_of_singleton in Hin. by injection Hin. }
  unfold cliente_jogo. rewrite sort_values_desc_Permutation, groupby_elem_of.
  set (complete := fun r : CleanRecord =>
         is_Some (user_id r) /\ is_Some (game_name r) /\ is_Some (reference r)).
  set (key3 := fun r : CleanRecord =>
         u' ← user_id r; g' ← game_name r; Some (brand_name r, u', g')).
  set (D := drop_duplicates key_brand_user_game_ref (filter complete dff)).
  set (Pk := fun r : CleanRecord =>
         brand_name r = b /\ user_id r = Some u /\ game_name r = Some g).
  assert (Hkey : forall r, key3 r = Some (b, u, g) <-> Pk r).
  { intros r. unfold key3, Pk. destruct (user_id r), (game_name r); simpl;
      split; intros; destruct_and?; simplify_eq; done. }
  assert (HD : forall r, r ∈ D -> r ∈ dff /\ complete r).
  { intros r Hr%drop_duplicates_elem_of%list_elem_of_filter. tauto. }
  assert (Hback : forall r, r ∈ dff -> Pk r -> is_Some (reference r) ->
            exists r', r' ∈ D /\ Pk r' /\ reference r' = reference r).
  { intros r Hr (Hb & Hu & Hg) Href.
    destruct (drop_duplicates_key_elem key_brand_user_game_ref
                (filter complete dff) r) as (r' & Hr' & Hk).
    - apply list_elem_of_filter. split; [|done]. unfold complete.
      rewrite Hu, Hg. eauto.
    - exists r'. injection Hk as Hb' Hu' Hg' Href'. unfold Pk.
      rewrite Hb', Hu', Hg'. tauto. }
  assert (Hcount : count_reference (group key3 (b, u, g) D)
                   = nunique (reference <$> filter Pk dff)).
  { unfold count_reference, group.
    rewrite (filter_Forall_id (fun r => is_Some (reference r))).
    2:{ apply Forall_forall. intros r [_ Hr%HD]%list_elem_of_filter.
        destruct Hr as [_ Hc]. apply Hc. }
    set (G := filter (fun r => key3 r = Some (b, u, g)) D).
    rewrite <- (length_fmap reference G). unfold nunique.
    rewrite <- (length_fmap Some (remove_dups _)).
    apply Permutation_length, NoDup_Permutation.
    - apply (NoDup_fmap_1 (fun o => (b, Some u, Some g, o))).
      rewrite <- list_fmap_compose.
      rewrite (list_fmap_ext _ key_brand_user_game_ref G).
      + eapply sublist_NoDup;
          [apply (drop_duplicates_NoDup key_brand_user_game_ref (filter complete dff))|].
        apply fmap_sublist, sublist_filter.
      + intros i r [(Hb & Hu & Hg)%Hkey _]%list_elem_of_lookup_2%list_elem_of_filter.
        unfold key_brand_user_game_ref. simpl. by rewrite Hb, Hu, Hg.
    - apply NoDup_fmap_2; [apply _|apply NoDup_remove_dups].
    - intros o. rewrite !list_elem_of_fmap. split.
      + intros (r & -> & [Hk%Hkey Hr%HD]%list_elem_of_filter).
        destruct Hr as [Hr (_ & _ & [v Hv])].
        exists v. split; [done|].
        apply elem_of_remove_dups, list_elem_of_omap.
        exists (Some v). split; [|done].
        apply list_elem_of_fmap. exists r. split; [done|].
        by apply list_elem_of_filter.
      + intros (v & -> & Hv%elem_of_remove_dups%list_elem_of_omap).
        destruct Hv as (o & (r & -> & [Hk Hr]%list_elem_of_filter)%list_elem_of_fmap & Hid).
        unfold id in Hid.
        destruct (Hback r Hr Hk) as (r' & Hr' & Hk' & Href); [by rewrite Hid|].
        exists r'. split; [by rewrite Href|].
        apply list_elem_of_filter. split; [by apply Hkey|done]. }
  rewrite Hcount. split.
  - intros [(r & Hr & (Hb & Hu & Hg)%Hkey) ->]. split; [|done].
    destruct (HD r Hr) as [Hin (_ & _ & Href)]. exists r. tauto.
  - intros [(r & Hr & Hb & Hu & Hg & Href) ->]. split; [|done].
    destruct (Hback r Hr) as (r' & Hr' & Hk' & _); [done..|].
    exists r'. split; [done|]. by apply Hkey.
Qed.

Lemma cliente_jogo_rows_exact_witness :
  let row u ref := mkClean (Some u) (Some "g1") (Some ref) (Some 0%Z) "7K" in
  ("7K", "u1", "g1", 2) ∈ cliente_jogo [row "u1" "a"; row "u1" "b"; row "u2" "a"; row "u1" "a"].
Proof.
  intros row.
  apply (proj1 (cliente_jogo_rows_exact _ _ _ _ _)). split.
  - exists (row "u1" "a"). split; [elem_of_literal|]. repeat split; by eauto.
  - reflexivity.
Defined.

(** ** Brands and tabs *)

Section Unique.
Context {A : Type} `{EqDecision A}.

Lemma unique_NoDup (l : list A) : NoDup (unique l).
Proof.
  unfold unique. rewrite <- (list_fmap_id (drop_duplicates id l)).
  apply (drop_duplicates_NoDup id).
Qed.

Lemma elem_of_unique (l : list A) x : x ∈ unique l <-> x ∈ l.
Proof.
  unfold unique. split; [apply drop_duplicates_elem_of|].
  intros Hx. destruct (drop_duplicates_key_elem id l x Hx) as (x' & Hx' & Heq).
  unfold id in Heq. by subst.
Qed.

End Unique.

Lemma elem_of_brands_presentes (dff : list CleanRecord) b :
  b ∈ brands_presentes dff <-> exists r, r ∈ dff /\ brand_name r = b.
Proof.
  unfold brands_presentes. rewrite elem_of_unique, list_elem_of_fmap.
  split; intros (r & Hr1 & Hr2); exists r; by split.
Qed.

(** X10. The options of the brand filter are the brands of the valid
    rows, each once, in ascending order. *)
Theorem brands_opts_sorted_distinct (df : list CleanRecord) :
  Sorted (fun a b => String.leb a b = true) (brands_opts df)
  /\ NoDup (brands_opts df)
  /\ forall b, b ∈ brands_opts df <-> exists r, r ∈ df /\ brand_name r = b.
Proof.
  unfold brands_opts. split; [|split].
  - apply sort_by_Sorted. intros x y Hxy.
    destruct (String.leb_total x y) as [Hle|Hle]; congruence.
  - rewrite sort_by_Permutation. apply unique_NoDup.
  - intros b. rewrite sort_by_Permutation. apply elem_of_brands_presentes.
Qed.

Lemma ordered_spec (ordem_brands pres : list string) :
  NoDup ordem_brands -> NoDup pres ->
  NoDup (ordered ordem_brands pres)
  /\ forall b, b ∈ ordered ordem_brands pres <-> b ∈ pres.
Proof.
  intros Hnd Hpres. unfold ordered.
  set (pref := filter (fun b => b ∈ pres) ordem_brands).
  split.
  - apply NoDup_app. split; [by apply NoDup_filter|]. split.
    + intros b Hb [Hn _]%list_elem_of_filter. by apply Hn.
    + by apply NoDup_filter.
  - intros b. rewrite elem_of_app, list_elem_of_filter.
    destruct (decide (b ∈ pref)) as [Hb|Hb]; [|tauto].
    split; [|tauto]. intros _. apply list_elem_of_filter in Hb. tauto.
Qed.

(** X11. When no brand is chosen twice in the preferred order, the tabs
    are the brands of the filtered table, each once: first the preferred
    ones, in the preferred order, then the others in the order of the
    table. *)
Theorem tabs_are_the_brands_present (ordem_brands : list string)
    (dff : list CleanRecord) :
  NoDup ordem_brands ->
  let tabs := ordered ordem_brands (brands_presentes dff) in
  NoDup tabs
  /\ (forall b, b ∈ tabs <-> exists r, r ∈ dff /\ brand_name r = b)
  /\ tabs ≡ₚ brands_presentes dff
  /\ exists others,
       tabs = filter (fun b => b ∈ brands_presentes dff) ordem_brands ++ others
       /\ others `sublist_of` brands_presentes dff
       /\ forall b, b ∈ others -> b ∉ ordem_brands.
Proof.
  intros Hnd tabs.
  assert (Hpres : NoDup (brands_presentes dff)) by apply unique_NoDup.
  destruct (ordered_spec ordem_brands (brands_presentes dff) Hnd Hpres)
    as [Hnodup Hmem].
  split; [done|]. split; [|split].
  - intros b. unfold tabs. rewrite Hmem. apply elem_of_brands_presentes.
  - by apply NoDup_Permutation.
  - unfold tabs, ordered.
    set (pref := filter (fun b => b ∈ brands_presentes dff) ordem_brands).
    exists (filter (fun b => b ∉ pref) (brands_presentes dff)). split; [done|].
    split; [apply sublist_filter|].
    intros b [Hn Hb]%list_elem_of_filter Ho. apply Hn.
    by apply list_elem_of_filter.
Qed.

Lemma tabs_are_the_brands_present_witness :
  let row b := mkClean None None (Some "a") (Some 0%Z) b in
  ordered ["7K"; "Cassino"; "Vera"] (brands_presentes [row "zeta"; row "Vera"; row "7K"; row "Vera"])
  ≡ₚ brands_presentes [row "zeta"; row "Vera"; row "7K"; row "Vera"].
Proof.
  intros row.
  pose proof (tabs_are_the_brands_present ["7K"; "Cassino"; "Vera"]
                [row "zeta"; row "Vera"; row "7K"; row "Vera"]) as Htabs.
  destruct Htabs as (_ & _ & Hperm & _); [|exact Hperm].
  apply (bool_decide_unpack _). vm_compute. exact I.
Defined.

(** The slices of a table by the tabs partition it. *)
Lemma tab_sizes {A : Type} (brand : A -> string) (tabs : list string) (l : list A) :
  NoDup tabs -> (forall r, r ∈ l -> brand r ∈ tabs) ->
  sum_list ((fun b => length (filter (fun r => brand r = b) l)) <$> tabs) = length l.
Proof.
  intros Hnd Hin.
  transitivity (length (filter (fun r => is_Some (Some (brand r))) l));
    [|by rewrite filter_all by eauto].
  rewrite <- (group_sizes (fun r => Some (brand r)) tabs l Hnd).
  - f_equal. apply list_fmap_ext. intros i b _. unfold group. f_equal.
    apply list_filter_iff. intros r. split; [by intros ->|by intros [= ->]].
  - intros k (r & Hr & [= <-])%list_elem_of_omap. by apply Hin.
Qed.

Lemma refs_brand_brands (dff : list CleanRecord) b :
  (exists r, r ∈ refs_brand dff /\ brand_name r = b)
  <-> exists r, r ∈ dff /\ brand_name r = b.
Proof.
  split.
  - intros (r & Hr%drop_duplicates_elem_of & Hb). by exists r.
  - intros (r & Hr & Hb).
    destruct (drop_duplicates_key_elem key_brand_ref dff r Hr) as (r' & Hr' & [= Hb' _]).
    exists r'. split; [done|]. by rewrite Hb'.
Qed.

(** X12. When no brand is chosen twice in the preferred order, the
    figures of the tabs add up to the figures of the page: rollbacks, rows
    of the per-user-game table, time buckets and games. *)
Theorem tab_figures_add_up (ordem_brands : list string) (dff : list CleanRecord)
    (w : Z) :
  NoDup ordem_brands ->
  let tabs := ordered ordem_brands (brands_presentes dff) in
  let rb := refs_brand dff in
  sum_list (total_brand_rollbacks rb <$> tabs) = total_rollbacks rb
  /\ sum_list (total_brand_usuario_jogo (cliente_jogo dff) <$> tabs)
     = length (cliente_jogo dff)
  /\ sum_list (total_brand_horarios (horarios w rb) <$> tabs)
     = length (horarios w rb)
  /\ sum_list (total_brand_jogos (jogos rb) <$> tabs) = total_jogos (jogos rb).
Proof.
  intros Hnd tabs rb.
  assert (Hpres : NoDup (brands_presentes dff)) by apply unique_NoDup.
  destruct (ordered_spec ordem_brands (brands_presentes dff) Hnd Hpres)
    as [Hnodup Hmem].
  fold tabs in Hnodup, Hmem.
  assert (Htab : forall b, b ∈ tabs <-> exists r, r ∈ dff /\ brand_name r = b).
  { intros b. rewrite Hmem. apply elem_of_brands_presentes. }
  split; [|split; [|split]].
  - unfold total_rollbacks. rewrite groupby_sum.
    apply sum_list_Permutation.
    rewrite (list_fmap_ext (total_brand_rollbacks rb)
               (fun b => nunique (reference <$>
                           group (fun r : CleanRecord => Some (brand_name r)) b rb)) tabs).
    + apply fmap_Permutation, NoDup_Permutation; [done|apply NoDup_remove_dups|].
      intros b. rewrite Htab, <- refs_brand_brands, elem_of_remove_dups, list_elem_of_omap.
      split; intros (r & Hr & Hb); exists r; (split; [done|congruence]).
    + intros i b _. unfold total_brand_rollbacks, brand_refs, group. do 2 f_equal.
      apply list_filter_iff. intros r. split; [by intros ->|by intros [= ->]].
  - apply (tab_sizes (fun row : string * string * string * nat => row.1.1.1));
      [done|].
    intros [[[b u] g] n]. unfold cliente_jogo.
    rewrite sort_values_desc_Permutation, groupby_elem_of.
    intros [(r & Hr%drop_duplicates_elem_of%list_elem_of_filter & Hk) _].
    simpl. apply Htab. exists r. split; [tauto|].
    destruct (user_id r), (game_name r); simpl in Hk; by simplify_eq.
  - apply (tab_sizes (fun row : string * Z * nat * string => row.1.1.1));
      [done|].
    intros [[[b t] n] txt]. unfold horarios, horarios_counts.
    rewrite list_elem_of_fmap.
    intros ([[b' t'] n'] & [= -> -> -> _] & Hin). revert Hin.
    rewrite sort_values_desc_Permutation, groupby_elem_of.
    intros [(r & Hr & Hk) _]. simpl. apply Htab, refs_brand_brands.
    exists r. split; [done|].
    destruct (created_at r); simpl in Hk; by simplify_eq.
  - rewrite (total_jogos_distinct _ (jogos_keys_NoDup rb)).
    rewrite (list_fmap_ext (total_brand_jogos (jogos rb))
               (fun b => length (filter (fun row : string * string * nat => row.1.1 = b)
                                   (jogos rb))) tabs)
      by (intros i b _; apply total_brand_jogos_length, jogos_keys_NoDup).
    apply (tab_sizes (fun row : string * string * nat => row.1.1)); [done|].
    intros [[b g] n]. unfold jogos.
    rewrite sort_values_desc_Permutation, groupby_elem_of.
    intros [(r & [_ Hr]%list_elem_of_filter & Hk) _].
    simpl. apply Htab, refs_brand_brands. exists r. split; [done|].
    destruct (game_name r); simpl in Hk; by simplify_eq.
Qed.

Lemma tab_figures_add_up_witness :
  let row b g ref := mkClean (Some "u") (Some g) (Some ref) (Some 0%Z) b in
  let dff := [row "zeta" "g1" "a"; row "Vera" "g1" "b"; row "7K" "g2" "c"; row "Vera" "g1" "b"] in
  let tabs := ordered ["7K"; "Cassino"; "Vera"] (brands_presentes dff) in
  sum_list (total_brand_rollbacks (refs_brand dff) <$> tabs) = total_rollbacks (refs_brand dff).
Proof.
  intros row dff tabs.
  pose proof (tab_figures_add_up ["7K"; "Cassino"; "Vera"] dff 1) as Hsum.
  destruct Hsum as (Hrollbacks & _); [|exact Hrollbacks].
  apply (bool_decide_unpack _). vm_compute. exact I.
Defined.

(** ** Filters and outcomes *)

Lemma drop_duplicates_from_distinct {A K : Type} `{EqDecision K} (key : A -> K)
    (seen : list K) (l : list A) :
  NoDup (key <$> l) -> (forall r, r ∈ l -> key r ∉ seen) ->
  drop_duplicates_from key seen l = l.
Proof.
  revert seen. induction l as [|r l IH]; intros seen; [done|].
  rewrite fmap_cons, NoDup_cons. intros [Hr Hnd] Hseen. simpl.
  rewrite bool_decide_eq_false_2 by (apply Hseen, list_elem_of_here).
  f_equal. apply IH; [done|]. intros x Hx. rewrite not_elem_of_cons. split.
  - intros Heq. apply Hr. rewrite <- Heq. apply list_elem_of_fmap. by exists x.
  - by apply Hseen, list_elem_of_further.
Qed.

(** X13. Deduplicating the fact table again changes nothing, and the fact
    rows of a tab are the deduplicated rows of its brand. *)
Theorem refs_brand_idempotent_and_sliced (dff : list CleanRecord) (brand : string) :
  refs_brand (refs_brand dff) = refs_brand dff
  /\ brand_refs (refs_brand dff) brand = refs_brand (brand_refs dff brand).
Proof.
  split.
  - unfold refs_brand at 1. apply drop_duplicates_from_distinct.
    + apply drop_duplicates_NoDup.
    + intros r _. apply not_elem_of_nil.
  - unfold brand_refs, refs_brand. symmetry. apply drop_duplicates_filter.
    intros r1 r2 _ _ [= Hb _] <-. by symmetry.
Qed.

Section Outcomes.
Context `{Pandas}.

Lemma remove_invalid_nil df : remove_invalid df = [] <-> Forall invalid_row df.
Proof.
  rewrite Forall_forall. split.
  - intros Hnil r Hr. destruct (decide (invalid_row r)) as [|Hv]; [done|].
    assert (Hin : r ∈ remove_invalid df) by (by apply remove_invalid_elem_of).
    rewrite Hnil in Hin. by apply elem_of_nil in Hin.
  - intros Hall. destruct (remove_invalid df) as [|r l] eqn:Heq; [done|].
    assert (Hin : r ∈ remove_invalid df) by (rewrite Heq; apply list_elem_of_here).
    apply remove_invalid_elem_of in Hin as [Hin Hv]. by apply Hall in Hin.
Qed.

Lemma drop_duplicates_nil {A K : Type} `{EqDecision K} (key : A -> K) l :
  drop_duplicates key l = [] -> l = [].
Proof. destruct l as [|r l]; [done|]. unfold drop_duplicates. simpl. done. Qed.

Lemma floor_raises_spec w (rb : list CleanRecord) :
  floor_raises w rb
  <-> exists r t, r ∈ rb /\ created_at r = Some t
                  /\ (t - t mod w < Timestamp.int64_min)%Z.
Proof.
  unfold floor_raises. rewrite Exists_exists. split.
  - intros (r & Hr & Hraise). destruct (created_at r) as [t|] eqn:Ht; [|done].
    exists r, t. split; [done|]. split; [done|].
    revert Hraise. unfold Timestamp.dt_floor, Timestamp.floor. cbv zeta.
    destruct (Z.ltb_spec (t - t mod w) Timestamp.int64_min); done.
  - intros (r & t & Hr & Ht & Hlt). exists r. split; [done|]. rewrite Ht.
    unfold Timestamp.dt_floor, Timestamp.floor. cbv zeta.
    destruct (Z.ltb_spec (t - t mod w) Timestamp.int64_min); [done|lia].
Qed.

(** X14. How a run from the cleaned table ends, never with an error
    message: with the warning of no valid rows exactly when every row is
    invalid (so for the empty table); otherwise with an exception exactly
    when the pattern of a text filter that is set does not compile, or
    when the start of the bucket of a fact row is below the 64-bit
    integers; otherwise with the warning of no rows after the filters
    exactly when no valid row passes the filters; and otherwise with the
    tables, computed from the valid rows that pass, and then the fact table
    is not empty. *)
Theorem pipeline_outcomes cfg b (df : list CleanRecord) :
  let dff := apply_filters cfg (remove_invalid df) in
  (pipeline cfg b df = StopWarning no_valid_rows <-> Forall invalid_row df)
  /\ (pipeline cfg b df = Uncaught
      <-> ~ Forall invalid_row df
          /\ (~ patterns_compile cfg
              \/ floor_raises (Timestamp.freq b) (refs_brand dff)))
  /\ (pipeline cfg b df = StopWarning no_filtered_rows
      <-> ~ Forall invalid_row df /\ patterns_compile cfg
          /\ Forall (fun r => invalid_row r \/ ~ passes cfg r) df)
  /\ (forall t, pipeline cfg b df = Rendered t <->
        (exists r, r ∈ df /\ ~ invalid_row r /\ passes cfg r)
        /\ patterns_compile cfg
        /\ ~ floor_raises (Timestamp.freq b) (refs_brand dff)
        /\ t = processamento b dff)
  /\ (forall t, pipeline cfg b df = Rendered t -> t_refs_brand t <> [])
  /\ (forall msg, pipeline cfg b df <> StopError msg)
  /\ (floor_raises (Timestamp.freq b) (refs_brand dff)
      <-> exists r t, r ∈ refs_brand dff /\ created_at r = Some t
            /\ (t - t mod Timestamp.freq b < Timestamp.int64_min)%Z).
Proof.
  intros dff.
  assert (Hfilt : dff = []
                  <-> Forall (fun r => invalid_row r \/ ~ passes cfg r) df).
  { unfold dff. rewrite apply_filters_passes, Forall_forall. split.
    - intros Hnil r Hr.
      destruct (decide (invalid_row r)) as [|Hv]; [by left|right].
      intros Hp. eapply filter_nil_not_elem_of; [exact Hnil|exact Hp|].
      by apply remove_invalid_elem_of.
    - intros Hall. destruct (filter _ _) as [|r l] eqn:Heq; [done|].
      assert (Hin : r ∈ filter (passes cfg) (remove_invalid df))
        by (rewrite Heq; apply list_elem_of_here).
      apply list_elem_of_filter in Hin as [Hp [Hin Hv]%remove_invalid_elem_of].
      destruct (Hall r Hin); tauto. }
  assert (Hex : (exists r, r ∈ df /\ ~ invalid_row r /\ passes cfg r) <-> dff <> []).
  { rewrite Hfilt. split.
    - intros (r & Hr & Hv & Hp) Hall. rewrite Forall_forall in Hall.
      destruct (Hall r Hr); tauto.
    - intros Hn. apply not_Forall_Exists in Hn; [|apply _].
      apply Exists_exists in Hn as (r & Hr & Hn). simpl in Hn.
      exists r. split; [done|].
      destruct (decide (invalid_row r)), (decide (passes cfg r)); tauto. }
  assert (Hvalid : dff <> [] -> remove_invalid df <> []).
  { intros Hne Hnil. apply Hne. unfold dff. rewrite Hnil.
    by rewrite apply_filters_passes. }
  assert (Hraise : dff = [] -> ~ floor_raises (Timestamp.freq b) (refs_brand dff)).
  { intros Hnil. rewrite Hnil. unfold floor_raises. cbn. by intros ?%Exists_nil. }
  unfold pipeline. fold dff. rewrite <- remove_invalid_nil, <- Hfilt.
  split; [|split; [|split; [|split; [|split; [|split]]]]];
    try (intros t); try apply floor_raises_spec; try rewrite Hex;
    repeat case_bool_decide; try (split; intros; destruct_and?; try done; tauto);
    try done.
  - split; [intros [= <-]; tauto|]. by intros (_ & _ & _ & ->).
  - intros [= <-]. simpl. by intros ?%drop_duplicates_nil.
Qed.

(** X15. The filters keep the order of the rows, do not depend on the
    order in which they are applied, and applying them again to their
    result changes nothing; with no filter set every row is kept, and with
    a brand filter set only rows of the chosen brands are. *)
Theorem apply_filters_compose cfg1 cfg2 (df : list CleanRecord) :
  apply_filters cfg1 df `sublist_of` df
  /\ apply_filters cfg1 (apply_filters cfg1 df) = apply_filters cfg1 df
  /\ apply_filters cfg1 (apply_filters cfg2 df)
     = apply_filters cfg2 (apply_filters cfg1 df)
  /\ apply_filters (mkFilters [] "" "") df = df
  /\ (f_brand cfg1 <> [] ->
      forall r, r ∈ apply_filters cfg1 df -> brand_name r ∈ f_brand cfg1).
Proof.
  rewrite !apply_filters_passes.
  split; [apply sublist_filter|].
  split; [rewrite list_filter_filter; apply list_filter_iff; tauto|].
  split; [apply filter_comm|]. split.
  - apply filter_all. intros r. unfold passes. simpl. tauto.
  - intros Hb r [Hp _]%list_elem_of_filter. by apply Hp.
Qed.

End Outcomes.

Lemma apply_filters_compose_witness :
  let row b := mkClean (Some "u") (Some "g") (Some "a") (Some 0%Z) b in
  brand_name (row "Vera") ∈ ["Vera"].
Proof.
  intros row.
  pose proof (apply_filters_compose (H := Iso.pandas) (mkFilters ["Vera"] "" "")
                (mkFilters [] "" "") [row "7K"; row "Vera"]) as (_ & _ & _ & _ & Hb).
  apply Hb; [discriminate|]. vm_compute. elem_of_literal.
Defined.

(** ** Column labels *)

Lemma filter_ext_elem {A : Type} (P Q : A -> Prop) `{forall x, Decision (P x)}
    `{forall x, Decision (Q x)} (l : list A) :
  (forall x, x ∈ l -> P x <-> Q x) -> filter P l = filter Q l.
Proof.
  induction l as [|x l IH]; intros Hl; [done|].
  rewrite !filter_cons.
  rewrite (decide_ext (P x) (Q x)) by apply Hl, list_elem_of_here.
  rewrite IH; [done|]. intros y Hy. by apply Hl, list_elem_of_further.
Qed.

Lemma positions_distinct (cols : list string) label :
  NoDup cols -> label ∈ cols -> exists i, positions label cols = [i].
Proof.
  intros Hnd [i Hi]%list_elem_of_lookup_1. exists i. unfold positions.
  apply Permutation_singleton_r, NoDup_Permutation.
  - apply NoDup_filter, NoDup_seq.
  - apply NoDup_singleton.
  - intros j. rewrite list_elem_of_filter, elem_of_seq, list_elem_of_singleton.
    split.
    + intros [Hj _]. by apply (NoDup_lookup cols j i label).
    + intros ->. split; [done|]. apply lookup_lt_Some in Hi. lia.
Qed.

(** The selection succeeds only when each label of [colmap] is carried by
    one column, and then it has the rows of the table. *)
Lemma select_columns_Some colmap df rows :
  select_columns colmap df = Some rows ->
  length rows = length (data df)
  /\ Forall (fun kv => length (positions kv.2 (columns df)) = 1%nat) colmap.
Proof.
  unfold select_columns.
  destruct colmap as [|k1 [|k2 [|k3 [|k4 [|k5 [|k6 colmap]]]]]];
    cbn [fmap list_fmap]; try (repeat case_match; discriminate).
  destruct (positions k1.2 (columns df)) as [|? [|? ?]] eqn:E1; try discriminate.
  destruct (positions k2.2 (columns df)) as [|? [|? ?]] eqn:E2; try discriminate.
  destruct (positions k3.2 (columns df)) as [|? [|? ?]] eqn:E3; try discriminate.
  destruct (positions k4.2 (columns df)) as [|? [|? ?]] eqn:E4; try discriminate.
  destruct (positions k5.2 (columns df)) as [|? [|? ?]] eqn:E5; try discriminate.
  intros [= <-]. split; [by rewrite length_fmap|].
  repeat (constructor; [by rewrite ?E1, ?E2, ?E3, ?E4, ?E5|]). constructor.
Qed.

Section Labels.
Context `{Pandas}.
Import Text.

(** The entry of the dict of labels for a key is the last label with that
    key. *)
Lemma cols_lower_fold_last (m : gmap string string) cols k :
  foldl (fun m c => <[strip (str_lower c) := c]> m) m cols !! k
  = match last (filter (fun c => strip (str_lower c) = k) cols) with
    | Some c => Some c
    | None => m !! k
    end.
Proof.
  revert m. induction cols as [|c cols IH]; intros m; [done|].
  simpl. rewrite IH. rewrite filter_cons.
  destruct (decide (strip (str_lower c) = k)) as [Hk|Hk].
  - destruct (filter _ cols) as [|x l] eqn:Hf.
    + simpl. rewrite <- Hk. apply lookup_insert_eq.
    + rewrite last_cons_cons.
      destruct (last (x :: l)) eqn:Hl; [done|]. by apply last_None in Hl.
  - destruct (last (filter _ cols)); [done|]. by apply lookup_insert_ne.
Qed.

Lemma cols_lower_last df name :
  cols_lower (columns (norm_cols df)) !! name
  = strip <$> last (filter (header_matches name) (columns df)).
Proof.
  unfold cols_lower. rewrite cols_lower_fold_last, lookup_empty. simpl.
  assert (Hf : filter (fun c => strip (str_lower c) = name) (strip <$> columns df)
               = strip <$> filter (header_matches name) (columns df)).
  { induction (columns df) as [|c cols IH]; [done|].
    rewrite fmap_cons, !filter_cons, IH. unfold header_matches.
    destruct (decide (strip (str_lower (strip c)) = name)); done. }
  rewrite Hf, fmap_last. by destruct (last _).
Qed.

(** The result of [require_cols] on the stripped labels, from the labels
    of the file. *)
Lemma require_cols_unfold df req :
  require_cols (norm_cols df) req
  = if bool_decide (not_found (columns df) req <> [])
    then inl (missing_message (not_found (columns df) req) req)
    else inr ((fun k => (k, default ""
                 (strip <$> last (filter (header_matches k) (columns df)))))
              <$> req).
Proof.
  unfold require_cols. rewrite require_cols_missing.
  case_bool_decide; [done|]. f_equal. apply list_fmap_ext.
  intros i k _. by rewrite cols_lower_last.
Qed.

(** X16. Of several labels matching a required name, the last one is
    taken; a column whose label matches no required name changes nothing,
    wherever it stands; and the rows play no part. *)
Theorem require_cols_last_label_and_extras (df : DataFrame) :
  (forall colmap name label,
      require_cols (norm_cols df) required = inr colmap ->
      (name, label) ∈ colmap ->
      exists raw, last (filter (header_matches name) (columns df)) = Some raw
                  /\ label = strip raw)
  /\ (forall cols1 cols2 extra rows,
        columns df = cols1 ++ extra :: cols2 ->
        Forall (fun name => ~ header_matches name extra) required ->
        require_cols (norm_cols df) required
        = require_cols (norm_cols (mkDataFrame (cols1 ++ cols2) rows)) required).
Proof.
  split.
  - generalize required. intros req colmap name label. rewrite require_cols_unfold.
    case_bool_decide as Hnf; [done|]. intros [= <-].
    intros (k & [= -> ->] & Hk)%list_elem_of_fmap.
    destruct (last (filter (header_matches k) (columns df))) as [raw|] eqn:Hlast;
      [by exists raw|].
    exfalso. pose proof Hnf as Hnil.
    assert (Hin : k ∈ not_found (columns df) req); [|by rewrite Hnil in Hin;
      apply elem_of_nil in Hin].
    apply list_elem_of_filter. split; [|done].
    apply Forall_forall. intros c Hc Hm. apply last_None in Hlast.
    assert (Hcin : c ∈ filter (header_matches k) (columns df))
      by (by apply list_elem_of_filter).
    rewrite Hlast in Hcin. by apply elem_of_nil in Hcin.
  - intros cols1 cols2 extra rows Hcols Hextra.
    rewrite !require_cols_unfold. cbn [columns]. rewrite Hcols.
    rewrite Forall_forall in Hextra.
    assert (Hnf : not_found (cols1 ++ extra :: cols2) required
                  = not_found (cols1 ++ cols2) required).
    { apply filter_ext_elem. intros name Hname.
      rewrite !Forall_app, Forall_cons. specialize (Hextra name Hname). tauto. }
    rewrite Hnf. case_bool_decide; [done|]. f_equal.
    apply list_fmap_ext. intros i k Hk%list_elem_of_lookup_2.
    rewrite !filter_app, filter_cons_False; [done|]. by apply Hextra.
Qed.

Lemma chosen_label_position (df : DataFrame) (req : list string) k :
  NoDup (columns (norm_cols df)) -> not_found (columns df) req = [] -> k ∈ req ->
  exists i, positions
              (default "" (strip <$> last (filter (header_matches k) (columns df))))
              (columns (norm_cols df)) = [i].
Proof.
  intros Hnd Hnf Hk.
  destruct (last (filter (header_matches k) (columns df))) as [raw|] eqn:Hlast.
  - apply positions_distinct; [done|]. simpl. apply list_elem_of_fmap.
    exists raw. split; [done|].
    apply last_Some_elem_of in Hlast. by apply list_elem_of_filter in Hlast as [_ ?].
  - exfalso. apply last_None in Hlast.
    assert (Hin : k ∈ not_found (columns df) req); [|by rewrite Hnf in Hin;
      apply elem_of_nil in Hin].
    apply list_elem_of_filter. split; [|done].
    apply Forall_forall. intros c Hc Hm.
    assert (Hcin : c ∈ filter (header_matches k) (columns df))
      by (by apply list_elem_of_filter).
    rewrite Hlast in Hcin. by apply elem_of_nil in Hcin.
Qed.

Lemma length_clean (rows : list RawRecord) : length (clean rows) = length rows.
Proof.
  unfold clean. rewrite length_zip_with, to_datetime_length, length_fmap. lia.
Qed.

(** X17. The selection of the five columns. When it succeeds, the run
    goes on with one cleaned row for each row of the file, and it does
    succeed when the stripped labels of the file are all different and
    every required name matches a label. When the label chosen for a
    required name is carried by several columns, the run ends with an
    exception. A run that ends with an exception has every required name
    matched, and either two columns with the same stripped label, or an
    exception raised after the cleaning. *)
Theorem main_selects_or_raises cfg b (df : DataFrame) :
  (forall colmap rows,
      require_cols (norm_cols df) required = inr colmap ->
      select_columns colmap (norm_cols df) = Some rows ->
      main cfg b df = pipeline cfg b (clean rows)
      /\ length (clean rows) = length (data df))
  /\ (NoDup (columns (norm_cols df)) -> not_found (columns df) required = [] ->
      exists colmap rows,
        require_cols (norm_cols df) required = inr colmap
        /\ select_columns colmap (norm_cols df) = Some rows)
  /\ (forall colmap name label,
        require_cols (norm_cols df) required = inr colmap ->
        (name, label) ∈ colmap ->
        length (positions label (columns (norm_cols df))) <> 1%nat ->
        main cfg b df = Uncaught)
  /\ (main cfg b df = Uncaught ->
      not_found (columns df) required = []
      /\ (~ NoDup (columns (norm_cols df))
          \/ exists rows, length (clean rows) = length (data df)
                          /\ pipeline cfg b (clean rows) = Uncaught)).
Proof.
  assert (Hrun : forall colmap rows,
            require_cols (norm_cols df) required = inr colmap ->
            select_columns colmap (norm_cols df) = Some rows ->
            main cfg b df = pipeline cfg b (clean rows)
            /\ length (clean rows) = length (data df)).
  { intros colmap rows Hreq Hsel. unfold main. rewrite Hreq, Hsel.
    split; [done|]. rewrite length_clean.
    by apply select_columns_Some in Hsel as [-> _]. }
  assert (Hsel : NoDup (columns (norm_cols df)) ->
            not_found (columns df) required = [] ->
            exists colmap rows,
              require_cols (norm_cols df) required = inr colmap
              /\ select_columns colmap (norm_cols df) = Some rows).
  { intros Hnd Hnf.
    assert (Hreq : require_cols (norm_cols df) required
                   = inr ((fun k => (k, default ""
                             (strip <$> last (filter (header_matches k) (columns df)))))
                          <$> required)).
    { rewrite require_cols_unfold, Hnf.
      by rewrite bool_decide_eq_false_2 by (by intros Hn). }
    rewrite Hreq. eexists. 
    assert (Hs : exists rows,
              select_columns
                ((fun k => (k, default ""
                    (strip <$> last (filter (header_matches k) (columns df)))))
                 <$> required) (norm_cols df) = Some rows);
      [|destruct Hs as [rows Hs]; by exists rows].
    unfold select_columns. rewrite <- list_fmap_compose.
    assert (Hpos : forall k, k ∈ required -> exists i,
              positions (default "" (strip <$>
                           last (filter (header_matches k) (columns df))))
                (columns (norm_cols df)) = [i])
      by (intros k Hk; by apply (chosen_label_position df required)).
    unfold required in *. cbn [fmap list_fmap compose snd].
    destruct (Hpos "user_id") as [iu ->]; [elem_of_literal|].
    destruct (Hpos "game_name") as [ig ->]; [elem_of_literal|].
    destruct (Hpos "reference") as [ir ->]; [elem_of_literal|].
    destruct (Hpos "created_at") as [ic ->]; [elem_of_literal|].
    destruct (Hpos "brand_name") as [ib ->]; [elem_of_literal|].
    by eexists. }
  split; [exact Hrun|]. split; [exact Hsel|]. split.
  - intros colmap name label Hreq Hin Hlen. unfold main. rewrite Hreq.
    destruct (select_columns colmap (norm_cols df)) as [rows|] eqn:Hs; [|done].
    exfalso. apply select_columns_Some in Hs as [_ Hall].
    rewrite Forall_forall in Hall. apply Hlen, (Hall _ Hin).
  - intros Hmain.
    destruct (decide (not_found (columns df) required = [])) as [Hnf|Hnf].
    + split; [done|].
      destruct (decide (NoDup (columns (norm_cols df)))) as [Hnd|Hnd]; [|by left].
      right. destruct (Hsel Hnd Hnf) as (colmap & rows & Hreq & Hs).
      destruct (Hrun colmap rows Hreq Hs) as [Heq Hlen].
      exists rows. split; [done|]. by rewrite <- Heq.
    + exfalso. revert Hmain. unfold main. rewrite require_cols_unfold.
      by rewrite bool_decide_eq_true_2.
Qed.

End Labels.

Lemma require_cols_last_label_and_extras_witness :
  let df := mkDataFrame ["user_id"; "x"; "game_name"; "reference"; "created_at";
                         "brand_name"; Text.NBSP +:+ "USER_ID "] [] in
  require_cols (H := Iso.pandas) (norm_cols df) required
  = require_cols (H := Iso.pandas)
      (norm_cols (mkDataFrame ["user_id"; "game_name"; "reference";
                               "created_at"; "brand_name"; Text.NBSP +:+ "USER_ID "]
                    [[NaN]])) required.
Proof.
  intros df.
  pose proof (require_cols_last_label_and_extras (H := Iso.pandas) df) as (_ & Hextra).
  apply (Hextra ["user_id"] ["game_name"; "reference"; "created_at";
                             "brand_name"; Text.NBSP +:+ "USER_ID "] "x"); [reflexivity|].
  apply (bool_decide_unpack _). vm_compute. exact I.
Defined.

Lemma main_selects_or_raises_witness :
  let cfg := mkFilters [] "" "" in
  let row := [Text "u1"; Text "g1"; Text "refA"; Text "2024-03-01T10:15:42Z"; Text "7kbet"] in
  let df := mkDataFrame ["user_id"; "game_name"; "reference"; " Created_at"; "BRAND_NAME"]
              [row] in
  let twice := mkDataFrame ["user_id"; "game_name"; "reference"; "created_at";
                            "brand_name"; "user_id" +:+ Text.NBSP]
                 [row ++ [Text "u2"]] in
  (exists colmap rows,
      require_cols (H := Iso.pandas) (norm_cols df) required = inr colmap
      /\ select_columns colmap (norm_cols df) = Some rows)
  /\ main (H := Iso.pandas) cfg Timestamp.Hora twice = Uncaught.
Proof.
  intros cfg row df twice. split.
  - pose proof (main_selects_or_raises (H := Iso.pandas) cfg Timestamp.Hora df)
      as (_ & Hsel & _).
    apply Hsel.
    + apply (bool_decide_unpack _). vm_compute. exact I.
    + reflexivity.
  - pose proof (main_selects_or_raises (H := Iso.pandas) cfg Timestamp.Hora twice)
      as (_ & _ & Hdup & _).
    apply (Hdup ((fun k => (k, if bool_decide (k = "user_id") then "user_id" else k))
                   <$> required) "user_id" "user_id").
    + reflexivity.
    + elem_of_literal.
    + vm_compute. lia.
Defined.

(** ** Text of the cells *)

Section Cells.
Import Text.

Lemma sub_dot0_end_app_lf p :
  sub_dot0_end (p +:+ String "." (String "0" (String LF ""))) = p +:+ String LF "".
Proof.
  induction p as [|c p IH]; [done|].
  rewrite !append_cons. cbn [sub_dot0_end]. rewrite IH.
  rewrite !bool_decide_eq_false_2; [done| |].
  - intros Heq. injection Heq as _ Heq.
    destruct p as [|? [|? [|? [|? ?]]]]; cbv in Heq; discriminate.
  - intros Heq. injection Heq as _ Heq.
    destruct p as [|? [|? [|? [|? ?]]]]; cbv in Heq; discriminate.
Qed.

Lemma sub_dot0_end_other s :
  (forall p, s <> p +:+ ".0") ->
  (forall p, s <> p +:+ String "." (String "0" (String LF ""))) ->
  sub_dot0_end s = s.
Proof.
  induction s as [|c s IH]; [done|]. intros H1 H2. cbn [sub_dot0_end].
  rewrite bool_decide_eq_false_2 by (apply (H1 "")).
  rewrite bool_decide_eq_false_2 by (apply (H2 "")).
  f_equal. apply IH.
  - intros p ->. by apply (H1 (String c p)).
  - intros p ->. by apply (H2 (String c p)).
Qed.

Lemma length_append_string p w :
  String.length (p +:+ w) = (String.length p + String.length w)%nat.
Proof. induction p as [|c p IH]; [done|]. rewrite append_cons. simpl. by rewrite IH. Qed.

Lemma rstrip_length s : (String.length (rstrip s) <= String.length s)%nat.
Proof.
  induction s as [|c s IH]; [done|]. rewrite rstrip_eq.
  destruct (blank (String c s)); simpl; lia.
Qed.

(** A stripped text does not start with white space and does not end with
    it. *)
Lemma strip_no_space s :
  skip_space (strip s) = None
  /\ forall p w, strip s = p +:+ w -> blank w = true -> w = "".
Proof.
  split; [apply skip_space_rstrip, skip_space_lstrip|].
  intros p w Heq Hw%bool_decide_eq_true.
  assert (Hlen : String.length (p +:+ w) = String.length (rstrip p)).
  { by rewrite <- (rstrip_app_blank p w Hw), <- Heq, rstrip_strip. }
  rewrite length_append_string in Hlen. pose proof (rstrip_length p).
  destruct w; [done|]. simpl in Hlen. lia.
Qed.

(** X18. What [coerce_user_id] removes is one ".0" ending the text, or one
    standing before a line feed that ends it; a text ending otherwise is
    left as it is, so that of "1.0.0" the text "1.0" remains. The text it
    returns, and the one returned for [game_name] and [reference], has no
    white space at either end: it does not start with a white-space
    character, no part that ends it is white space, and stripping it
    again changes nothing. *)
Theorem coerce_strips_one_suffix_and_trims (c : cell) :
  (forall p, sub_dot0_end (p +:+ ".0") = p)
  /\ (forall p, sub_dot0_end (p +:+ String "." (String "0" (String LF "")))
               = p +:+ String LF "")
  /\ (forall s, (forall p, s <> p +:+ ".0") ->
                (forall p, s <> p +:+ String "." (String "0" (String LF ""))) ->
                sub_dot0_end s = s)
  /\ (forall s, coerce_user_id c = Some s \/ coerce_text c = Some s ->
        strip s = s /\ lstrip s = s /\ rstrip s = s
        /\ skip_space s = None
        /\ forall p w, s = p +:+ w -> blank w = true -> w = "").
Proof.
  split; [apply sub_dot0_end_app|]. split; [apply sub_dot0_end_app_lf|].
  split; [apply sub_dot0_end_other|].
  intros s Hs.
  assert (Hstrip : exists s0, s = strip s0).
  { revert Hs. unfold coerce_user_id, coerce_text, str_strip, replace_with_na.
    intros [Hs|Hs]; revert Hs; case_bool_decide; cbn; intros Heq; try discriminate;
      injection Heq as <-; by eexists. }
  destruct Hstrip as [s0 ->].
  split; [apply strip_idemp|]. split; [apply lstrip_strip|].
  split; [apply rstrip_strip|]. apply strip_no_space.
Qed.

Lemma coerce_strips_one_suffix_and_trims_witness :
  coerce_user_id (Num "1.0.0") = Some "1.0"
  /\ Text.sub_dot0_end "12.5" = "12.5"
  /\ Text.strip "refA" = "refA".
Proof.
  pose proof (coerce_strips_one_suffix_and_trims (Text ("refA" +:+ Text.NBSP)))
    as (Hdot & _ & Hother & Htrim).
  split; [|split].
  - unfold coerce_user_id. cbn [astype_str].
    change "1.0.0" with ("1.0" +:+ ".0"). by rewrite Hdot.
  - apply Hother; intros p Hp;
      do 6 (destruct p as [|? p]; [cbv in Hp; discriminate|]);
      cbv in Hp; discriminate.
  - apply Htrim. right. reflexivity.
Defined.

End Cells.

Section BrandText.
Context `{Pandas}.
Import Text.

(** X19. The label of a brand does not depend on the case of the text nor
    on the white space around it, and it is one of the four canonical
    labels or the trimmed, lowercased text. *)
Theorem normalize_brand_case_and_padding (s : string) :
  normalize_brand (Text (str_lower s)) = normalize_brand (Text s)
  /\ normalize_brand (Text (strip s)) = normalize_brand (Text s)
  /\ (forall pre post, blank pre = true -> blank post = true ->
        normalize_brand (Text (pre +:+ s +:+ post)) = normalize_brand (Text s))
  /\ (normalize_brand (Text s) ∈ ["7K"; "Cassino"; "Vera"; "Sem Brand"]
      \/ normalize_brand (Text s) = str_lower (strip s)).
Proof.
  rewrite !normalize_brand_unfold. cbn [astype_str].
  split; [by rewrite brand_key_lower|].
  split; [by rewrite strip_idemp|].
  split.
  { intros pre post Hpre Hpost. rewrite normalize_brand_unfold. cbn [astype_str].
    by rewrite strip_padding. }
  unfold replace_dict, replace_with.
  destruct (dict_get brand_aliases (str_lower (strip s))) as [v|] eqn:Hv; simpl.
  - left. apply brand_aliases_values in Hv.
    rewrite !elem_of_cons, elem_of_nil in Hv.
    destruct Hv as [->|[->|[->|[]]]]; simpl; elem_of_literal.
  - case_bool_decide; [left; elem_of_literal|by right].
Qed.

End BrandText.

Lemma normalize_brand_case_and_padding_witness :
  normalize_brand (H := Iso.pandas) (Text (Text.NBSP +:+ "VERA" +:+ Text.IDSP))
  = normalize_brand (H := Iso.pandas) (Text "VERA").
Proof.
  pose proof (normalize_brand_case_and_padding (H := Iso.pandas) "VERA")
    as (_ & _ & Hpad & _).
  apply Hpad; reflexivity.
Defined.



(** ** Figures *)

Section Figures.

Lemma string_of_uint_no_separator d :
  Forall (fun c => c <> ","%char /\ c <> "."%char)
    (list_ascii_of_string (DecimalString.NilEmpty.string_of_uint d)).
Proof. induction d; simpl; constructor; (done || by split). Qed.

Lemma decimal_no_separator n :
  Forall (fun c => c <> ","%char /\ c <> "."%char) (list_ascii_of_string (decimal n)).
Proof.
  unfold decimal, DecimalString.NilZero.string_of_uint.
  destruct (N.to_uint n); try apply string_of_uint_no_separator.
  repeat constructor; done.
Qed.

Lemma decimal_not_nil n :
  decimal n = DecimalString.NilEmpty.string_of_uint (N.to_uint n).
Proof.
  unfold decimal, DecimalString.NilZero.string_of_uint.
  destruct (N.to_uint n) eqn:Hn; try done.
  exfalso. destruct n as [|p]; [done|].
  unfold N.to_uint in Hn. pose proof (DecimalPos.Unsigned.to_uint_nonnil p). done.
Qed.

Lemma group_digits_replace ds :
  Forall (fun c => c <> ","%char /\ c <> "."%char) ds ->
  (fun c => if bool_decide (c = ","%char) then "."%char else c)
    <$> group_digits "," ds
  = group_digits "." ds.
Proof.
  induction 1 as [|c ds [Hc _] _ IH]; [done|]. cbn [group_digits].
  rewrite fmap_cons, bool_decide_eq_false_2 by done.
  destruct (bool_decide (ds <> []) && (length ds mod 3 =? 0)%nat).
  - rewrite fmap_cons, bool_decide_eq_true_2 by done. by rewrite IH.
  - by rewrite IH.
Qed.

Lemma group_digits_remove ds :
  Forall (fun c => c <> ","%char /\ c <> "."%char) ds ->
  filter (fun c => c <> "."%char) (group_digits "." ds) = ds.
Proof.
  induction 1 as [|c ds [_ Hc] _ IH]; [done|]. cbn [group_digits].
  rewrite filter_cons_True by done.
  destruct (bool_decide (ds <> []) && (length ds mod 3 =? 0)%nat).
  - rewrite filter_cons_False by (by intros Hn). by rewrite IH.
  - by rewrite IH.
Qed.

Lemma group_digits_length sep ds :
  length (group_digits sep ds) = length ds + (length ds - 1) / 3.
Proof.
  induction ds as [|c ds IH]; [done|]. cbn [group_digits].
  assert (Hlen : forall b : bool,
            length (c :: (if b then sep :: group_digits sep ds
                          else group_digits sep ds))
            = S (length ds + (length ds - 1) / 3 + (if b then 1 else 0))).
  { intros []; cbn [length]; rewrite IH; lia. }
  rewrite Hlen. cbn [length]. clear Hlen IH.
  assert (Hnil : bool_decide (ds <> []) = negb (length ds =? 0)%nat).
  { by destruct ds. }
  rewrite Hnil. generalize (length ds). intros m.
  replace (S m - 1) with m by lia.
  pose proof (Nat.div_mod_eq m 3) as H1.
  pose proof (Nat.div_mod_eq (m - 1) 3) as H2.
  pose proof (Nat.mod_upper_bound m 3 ltac:(lia)) as H3.
  pose proof (Nat.mod_upper_bound (m - 1) 3 ltac:(lia)) as H4.
  destruct (Nat.eqb_spec m 0) as [->|Hm0]; [done|]. cbn [negb andb].
  destruct (Nat.eqb_spec (m mod 3) 0) as [Hm|Hm]; lia.
Qed.

Lemma kpi_int_small_ok :
  forallb (fun n => String.eqb (kpi_int n) (decimal (Z.to_N n))) (seqZ 0 1000) = true.
Proof. vm_compute. reflexivity. Qed.

(** X20. For a count [n >= 0], [kpi_int] prints the decimal digits of [n]
    with a dot before every group of three digits counted from the right:
    taking the dots away gives the digits back, which read as [n]; there are
    [(d - 1) / 3] dots for [d] digits, and none below 1000. *)
Theorem kpi_int_groups_digits (n : Z) :
  (0 <= n)%Z ->
  let digits := decimal (Z.to_N n) in
  let shown := kpi_int n in
  shown = string_of_list_ascii (group_digits "." (list_ascii_of_string digits))
  /\ string_of_list_ascii
       (filter (fun c => c <> "."%char) (list_ascii_of_string shown)) = digits
  /\ N.of_uint <$> DecimalString.NilEmpty.uint_of_string digits = Some (Z.to_N n)
  /\ String.length shown = String.length digits + (String.length digits - 1) / 3
  /\ ((n < 1000)%Z -> shown = digits).
Proof.
  intros Hn digits shown.
  assert (Habs : Z.abs_N n = Z.to_N n) by lia.
  assert (Hshown : shown
            = string_of_list_ascii (group_digits "." (list_ascii_of_string digits))).
  { unfold shown, kpi_int, replace_char.
    rewrite (proj2 (Z.ltb_ge n 0)) by lia. rewrite Habs. fold digits.
    change ("" +:+ ?s) with s.
    rewrite list_ascii_of_string_of_list_ascii.
    by rewrite group_digits_replace by apply decimal_no_separator. }
  split; [done|]. split; [|split; [|split]].
  - rewrite Hshown, list_ascii_of_string_of_list_ascii.
    rewrite group_digits_remove by apply decimal_no_separator.
    apply string_of_list_ascii_of_string.
  - unfold digits. rewrite decimal_not_nil, DecimalString.NilEmpty.usu. simpl.
    by rewrite DecimalN.Unsigned.of_to.
  - rewrite Hshown.
    assert (Hlen : forall l, String.length (string_of_list_ascii l) = length l).
    { induction l; simpl; auto. }
    assert (Hlen' : forall s, length (list_ascii_of_string s) = String.length s).
    { induction s; simpl; auto. }
    by rewrite Hlen, group_digits_length, Hlen'.
  - intros Hlt. pose proof kpi_int_small_ok as Hall.
    rewrite forallb_forall in Hall.
    apply String.eqb_eq, (Hall n), list_elem_of_In, elem_of_seqZ. lia.
Qed.

Lemma kpi_int_groups_digits_witness :
  kpi_int 1234567
  = string_of_list_ascii (group_digits "." (list_ascii_of_string "1234567")).
Proof.
  pose proof (kpi_int_groups_digits 1234567) as (Hshown & _); [lia|].
  exact Hshown.
Defined.

End Figures.

(** ** The rows of the per-time-bucket table *)

(** X21. The per-time-bucket table has one row for each pair of a brand
    and a bucket start that some fact row falls in, and no other row; its
    count is the number of fact rows of that brand in that bucket that have
    a reference, and its text is the print of the bucket start. *)
Theorem horarios_rows_exact (rb : list CleanRecord) (w : Z) (b : string) (start : Z)
    (n : nat) (txt : string) :
  ((b, start, n, txt) ∈ horarios w rb
   <-> (exists r t, r ∈ rb /\ brand_name r = b /\ created_at r = Some t
                    /\ Timestamp.floor w t = start)
       /\ n = length (filter (fun r => brand_name r = b
                                       /\ Timestamp.floor w <$> created_at r = Some start
                                       /\ is_Some (reference r)) rb)
       /\ txt = Timestamp.strftime start)
  /\ NoDup ((fun row => row.1.1) <$> horarios w rb).
Proof.
  set (key := fun r : CleanRecord =>
                t ← created_at r; Some (brand_name r, Timestamp.floor w t)).
  assert (Hkey : forall r, key r = Some (b, start)
            <-> brand_name r = b /\ Timestamp.floor w <$> created_at r = Some start).
  { intros r. unfold key. destruct (created_at r); simpl; split; intros;
      destruct_and?; simplify_eq; done. }
  assert (Hcount : count_reference (group key (b, start) rb)
            = length (filter (fun r => brand_name r = b
                                       /\ Timestamp.floor w <$> created_at r = Some start
                                       /\ is_Some (reference r)) rb)).
  { unfold count_reference, group. rewrite list_filter_filter. f_equal.
    apply list_filter_iff. intros r. rewrite Hkey. tauto. }
  split.
  - unfold horarios, horarios_counts. fold key. rewrite list_elem_of_fmap. split.
    + intros ([[b' s'] n'] & [= -> -> -> ->] & Hin). revert Hin.
      rewrite sort_values_desc_Permutation, groupby_elem_of.
      intros [(r & Hr & [Hb Ht]%Hkey) ->]. split; [|by rewrite Hcount].
      destruct (created_at r) as [t|] eqn:Hc; [|done].
      exists r, t. injection Ht as Ht. done.
    + intros ((r & t & Hr & Hb & Ht & Hs) & -> & ->).
      exists (b, start, count_reference (group key (b, start) rb)).
      split; [by rewrite Hcount|].
      rewrite sort_values_desc_Permutation, groupby_elem_of. split; [|done].
      exists r. split; [done|]. apply Hkey. by rewrite Ht, <- Hs.
  - unfold horarios. rewrite <- list_fmap_compose.
    change (NoDup (horarios_counts w rb).*1).
    unfold horarios_counts. rewrite sort_values_desc_Permutation.
    apply groupby_keys_NoDup.
Qed.

Lemma horarios_rows_exact_witness :
  let row b t := mkClean (Some "u") (Some "g") (Some "a") (Some t) b in
  ("7K", 0%Z, 2, "01/01/1970 00:00")
  ∈ horarios Timestamp.ns_per_minute [row "7K" 5%Z; row "Vera" 6%Z; row "7K" 7%Z].
Proof.
  intros row.
  apply (proj1 (horarios_rows_exact [row "7K" 5%Z; row "Vera" 6%Z; row "7K" 7%Z]
                  Timestamp.ns_per_minute "7K" 0 2 "01/01/1970 00:00")).
  split; [|split; reflexivity].
  exists (row "7K" 5%Z), 5%Z. split; [elem_of_literal|done].
Defined.
